(** * dei-website: the event repository and the Medium feed helpers

    A shallow embedding of [src/lib/supabase.ts] (the event repository with
    its sample-data fallback) and of [src/lib/medium.ts] (the RSS helpers:
    [fetchMediumArticles], [extractExcerpt], [calculateReadingTime]),
    together with the properties the specification states about them.

    JavaScript strings are sequences of UTF-16 code units and are modelled as
    [list N].  Values of type [unknown]/[any] are modelled by [JsVal].
    Asynchronous calls are modelled by their completion: the awaited promise
    either fulfils with a value or rejects, and a rejection is an exception
    at the [await].  The diagnostics written with [console.log] and
    [console.error] do not reach the returned values and are left out. *)

From Stdlib Require Import ZArith NArith List Bool Ascii String Lia.
From stdpp Require Import base option list gmap strings.

Set Default Proof Using "Type".
Set Warnings "-register-all".

(** ** JavaScript values *)

Module Js.

(** A string is its sequence of UTF-16 code units. *)
Abbreviation ustring := (list N).

(** The code units of an ASCII literal. *)
Definition js (s : string) : ustring :=
  List.map N_of_ascii (list_ascii_of_string s).

(** Runtime values.  [JNum] carries the integer-valued numbers; any other
    finite double behaves like a non-zero [JNum] in this code, which only
    tests numbers for truthiness.  [JDate src] is the object [new Date(src)]
    and [JDateNow t] the object [new Date()] built at clock reading [t]. *)
Inductive JsVal : Type :=
| JUndefined
| JNull
| JBool (b : bool)
| JNum (n : Z)
| JNaN
| JStr (s : ustring)
| JArr (xs : list JsVal)
| JObj (fields : list (string * JsVal))
| JDate (src : JsVal)
| JDateNow (t : Z).

(** ToBoolean. *)
Definition truthy (v : JsVal) : bool :=
  match v with
  | JUndefined | JNull | JNaN => false
  | JBool b => b
  | JNum n => negb (n =? 0)%Z
  | JStr s => match s with [] => false | _ :: _ => true end
  | JArr _ | JObj _ | JDate _ | JDateNow _ => true
  end.

(** [a || b]. *)
Definition or_else (a b : JsVal) : JsVal := if truthy a then a else b.

Infix "|||" := or_else (at level 50, left associativity).

(** A plain object used as a record of properties; reading a missing
    property yields [undefined]. *)
Abbreviation JsObject := (gmap string JsVal).

Definition prop (o : JsObject) (k : string) : JsVal :=
  default JUndefined (o !! k).

(** Completion of a computation: a value, or a thrown exception (for an
    [async] function: the promise fulfils, or rejects). *)
Inductive Completion (A : Type) : Type :=
| Normal (a : A)
| Throw (e : JsVal).
Arguments Normal {A} a.
Arguments Throw {A} e.

Definition ret {A} (a : A) : Completion A := Normal a.

Definition bind {A B} (c : Completion A) (k : A -> Completion B) : Completion B :=
  match c with
  | Normal a => k a
  | Throw e => Throw e
  end.

(** [try { body } catch (e) { handler }]. *)
Definition try_catch {A} (body : Completion A) (handler : JsVal -> Completion A)
  : Completion A :=
  match body with
  | Normal a => Normal a
  | Throw e => handler e
  end.

Definition TypeError : JsVal := JObj [("name"%string, JStr (js "TypeError"))].

(** Dereferencing a possibly-null reference ([x!.f], [x.f]). *)
Definition deref {A} (o : option A) : Completion A :=
  match o with
  | Some a => Normal a
  | None => Throw TypeError
  end.

Definition returns {A} (c : Completion A) : Prop := exists a, c = Normal a.

End Js.

Export Js.

Notation "'let*' x ':=' c 'in' k" := (bind c (fun x => k))
  (at level 10, x name, c at level 100, k at level 200).

(** ** The event repository ([src/lib/supabase.ts]) *)

Module Supabase.

(** [Event] of [src/types/index.ts].  The TypeScript annotations are erased
    at run time, so every field holds whatever value the mapper put there. *)
Record Event : Type := mkEvent {
  id : JsVal;
  title : JsVal;
  slug : JsVal;
  description : JsVal;
  excerpt : JsVal;
  startDate : JsVal;
  endDate : JsVal;
  timezone : JsVal;
  locationType : JsVal;
  venue : JsVal;
  address : JsVal;
  city : JsVal;
  virtualLink : JsVal;
  coverImage : JsVal;
  category : JsVal;
  tags : JsVal;
  status : JsVal;
  registrationUrl : JsVal;
  maxAttendees : JsVal;
  registeredCount : JsVal;
  createdAt : JsVal;
  updatedAt : JsVal;
  publishedAt : JsVal;
  isFeatured : JsVal
}.

(** The members of the two string-literal unions of [Event]. *)
Definition statusValues : list JsVal :=
  [JStr (js "upcoming"); JStr (js "ongoing"); JStr (js "completed");
   JStr (js "cancelled")].

Definition locationTypeValues : list JsVal :=
  [JStr (js "physical"); JStr (js "virtual"); JStr (js "hybrid")].

(** *** The hosted database client

    The client library is external.  A query is built by chaining and
    awaited; the awaited promise fulfils with a [{ data, error }] pair or
    rejects. *)

Record PostgrestError : Type := mkError {
  message : ustring;
  details : ustring;
  hint : ustring;
  code : ustring
}.

Record Response (D : Type) : Type := mkResponse {
  data : option D;
  error : option PostgrestError
}.
Arguments mkResponse {D} data error.
Arguments data {D} r.
Arguments error {D} r.

Record Query : Type := mkQuery {
  q_table : string;
  q_columns : string;
  q_eq : list (string * JsVal);
  q_order : option (string * bool);
  q_limit : option nat
}.

(** The chainable query builder. *)
Module Q.
Definition from (table : string) : Query :=
  mkQuery table "" [] None None.
Definition select (columns : string) (q : Query) : Query :=
  mkQuery (q_table q) columns (q_eq q) (q_order q) (q_limit q).
Definition eq (column : string) (v : JsVal) (q : Query) : Query :=
  mkQuery (q_table q) (q_columns q) (q_eq q ++ [(column, v)]) (q_order q) (q_limit q).
Definition order (column : string) (ascending : bool) (q : Query) : Query :=
  mkQuery (q_table q) (q_columns q) (q_eq q) (Some (column, ascending)) (q_limit q).
Definition limit (n : nat) (q : Query) : Query :=
  mkQuery (q_table q) (q_columns q) (q_eq q) (q_order q) (Some n).
End Q.

(** What awaiting a query yields: [await q] for a row set, and
    [await q.single()] for exactly one row. *)
Record Client : Type := mkClient {
  await_rows : Query -> Completion (Response (list JsObject));
  await_single : Query -> Completion (Response JsObject)
}.


(** [import.meta.env]: each variable is a string or missing. *)
Record ImportMetaEnv : Type := mkEnv {
  PUBLIC_SUPABASE_URL : option ustring;
  PUBLIC_SUPABASE_ANON_KEY : option ustring
}.

(** [v || ''] for an environment variable. *)
Definition env_or_empty (v : option ustring) : ustring :=
  match v with
  | Some (c :: s) => c :: s
  | _ => []
  end.

Definition nonempty (s : ustring) : bool :=
  match s with [] => false | _ :: _ => true end.

(** Map Supabase snake_case response to camelCase Event interface. *)
Definition mapDbEventToEvent (dbEvent : JsObject) : Event :=
  {| id := prop dbEvent "id";
     title := prop dbEvent "title";
     slug := prop dbEvent "slug";
     description := prop dbEvent "description";
     excerpt := prop dbEvent "excerpt" ||| JStr [];
     startDate := JDate (prop dbEvent "start_date");
     endDate := if truthy (prop dbEvent "end_date")
                then JDate (prop dbEvent "end_date") else JUndefined;
     timezone := prop dbEvent "timezone" ||| JStr (js "Asia/Jakarta");
     locationType := prop dbEvent "location_type" ||| JStr (js "virtual");
     venue := prop dbEvent "venue";
     address := prop dbEvent "address";
     city := prop dbEvent "city";
     virtualLink := prop dbEvent "virtual_link";
     coverImage := prop dbEvent "cover_image" ||| JStr [];
     category := prop dbEvent "category";
     tags := prop dbEvent "tags" ||| JArr [];
     status := prop dbEvent "status" ||| JStr (js "upcoming");
     registrationUrl := prop dbEvent "registration_url";
     maxAttendees := prop dbEvent "max_attendees";
     registeredCount := prop dbEvent "registered_count" ||| JNum 0;
     createdAt := JDate (prop dbEvent "created_at");
     updatedAt := JDate (prop dbEvent "updated_at");
     publishedAt := JDate (prop dbEvent "published_at");
     isFeatured := prop dbEvent "is_featured" ||| JBool false |}.

(** [Array.prototype.filter], [find] and [o || null] on events. *)
Definition filterEvents (p : Event -> JsVal) (l : list Event) : list Event :=
  List.filter (fun e => truthy (p e)) l.

Definition findEvent (p : Event -> bool) (l : list Event) : option Event :=
  List.find p l.

(** Strict equality [a === b] where [b] is a string. *)
Definition strict_eq_str (a : JsVal) (b : ustring) : bool :=
  match a with
  | JStr s => bool_decide (s = b)
  | _ => false
  end.

Section Repository.

(** The state of the process when the module is loaded: the environment,
    the client constructor of the library, and the readings of the system
    clock at the six [new Date()] calls of the sample data. *)
Variable env : ImportMetaEnv.
Variable createClient : ustring -> ustring -> Client.
Variable clock : nat -> Z.

Definition supabaseUrl : ustring := env_or_empty (PUBLIC_SUPABASE_URL env).
Definition supabaseKey : ustring := env_or_empty (PUBLIC_SUPABASE_ANON_KEY env).

(** Only create client if both URL and key are provided. *)
Definition supabase : option Client :=
  if nonempty supabaseUrl && nonempty supabaseKey
  then Some (createClient supabaseUrl supabaseKey)
  else None.

Definition isSupabaseConfigured : bool :=
  match supabase with Some _ => true | None => false end.

(** Sample/placeholder events for when Supabase is not configured. *)
Definition sampleEvents : list Event :=
  [ {| id := JStr (js "1");
       title := JStr (js "DEI Workshop: Introduction to Data Engineering");
       slug := JStr (js "intro-to-data-engineering");
       description := JStr (js "Join us for an introductory workshop on data engineering fundamentals. Learn about ETL pipelines, data warehousing, and modern data stack.");
       excerpt := JStr (js "An introductory workshop covering data engineering fundamentals, ETL pipelines, and modern data stack.");
       startDate := JDate (JStr (js "2026-03-15T09:00:00"));
       endDate := JDate (JStr (js "2026-03-15T12:00:00"));
       timezone := JStr (js "Asia/Jakarta");
       locationType := JStr (js "virtual");
       venue := JUndefined;
       address := JUndefined;
       city := JUndefined;
       virtualLink := JStr (js "https://zoom.us/j/example");
       coverImage := JStr [];
       category := JStr (js "Workshop");
       tags := JArr [JStr (js "beginner"); JStr (js "data-engineering"); JStr (js "etl")];
       status := JStr (js "upcoming");
       registrationUrl := JStr (js "https://forms.google.com/example");
       maxAttendees := JNum 100;
       registeredCount := JNum 45;
       createdAt := JDateNow (clock 0);
       updatedAt := JDateNow (clock 1);
       publishedAt := JDateNow (clock 2);
       isFeatured := JBool true |};
    {| id := JStr (js "2");
       title := JStr (js "Building Data Pipelines with Apache Airflow");
       slug := JStr (js "data-pipelines-airflow");
       description := JStr (js "Hands-on workshop on building and scheduling data pipelines using Apache Airflow.");
       excerpt := JStr (js "Learn to build and schedule data pipelines using Apache Airflow in this hands-on workshop.");
       startDate := JDate (JStr (js "2026-04-20T13:00:00"));
       endDate := JDate (JStr (js "2026-04-20T16:00:00"));
       timezone := JStr (js "Asia/Jakarta");
       locationType := JStr (js "hybrid");
       venue := JStr (js "Tech Hub Jakarta");
       address := JUndefined;
       city := JStr (js "Jakarta");
       virtualLink := JUndefined;
       coverImage := JStr [];
       category := JStr (js "Workshop");
       tags := JArr [JStr (js "airflow"); JStr (js "pipelines"); JStr (js "automation")];
       status := JStr (js "upcoming");
       registrationUrl := JStr (js "https://forms.google.com/example2");
       maxAttendees := JNum 50;
       registeredCount := JNum 23;
       createdAt := JDateNow (clock 3);
       updatedAt := JDateNow (clock 4);
       publishedAt := JDateNow (clock 5);
       isFeatured := JBool true |} ].

Definition eventsQuery : Query :=
  Q.order "start_date" true (Q.select "*" (Q.from "events")).

Definition getEvents : Completion (list Event) :=
  if negb isSupabaseConfigured then ret sampleEvents
  else
    try_catch
        (let* client := deref supabase in
         let* r := await_rows client eventsQuery in
         match error r with
         | Some _ => ret sampleEvents
         | None =>
             match data r with
             | Some rows => ret (List.map mapDbEventToEvent rows)
             | None => ret sampleEvents
             end
         end)
        (fun _ => ret sampleEvents).

Definition sampleBySlug (s : ustring) : option Event :=
  findEvent (fun e => strict_eq_str (slug e) s) sampleEvents.

Definition slugQuery (s : ustring) : Query :=
  Q.eq "slug" (JStr s) (Q.select "*" (Q.from "events")).

Definition getEventBySlug (s : ustring) : Completion (option Event) :=
  if negb isSupabaseConfigured then ret (sampleBySlug s)
  else
    try_catch
        (let* client := deref supabase in
         let* r := await_single client (slugQuery s) in
         match error r with
         | Some _ => ret (sampleBySlug s)
         | None =>
             match data r with
             | Some row => ret (Some (mapDbEventToEvent row))
             | None => ret None
             end
         end)
        (fun _ => ret (sampleBySlug s)).

Definition featuredQuery : Query :=
  Q.limit 3 (Q.order "start_date" true
    (Q.eq "status" (JStr (js "upcoming"))
      (Q.eq "is_featured" (JBool true) (Q.select "*" (Q.from "events"))))).

Definition getFeaturedEvents : Completion (list Event) :=
  if negb isSupabaseConfigured then ret (filterEvents isFeatured sampleEvents)
  else
    try_catch
        (let* client := deref supabase in
         let* r := await_rows client featuredQuery in
         match error r with
         | Some _ => ret (filterEvents isFeatured sampleEvents)
         | None =>
             match data r with
             | Some (row :: rows) =>
                 ret (List.map mapDbEventToEvent (row :: rows))
             | _ => ret (filterEvents isFeatured sampleEvents)
             end
         end)
        (fun _ => ret (filterEvents isFeatured sampleEvents)).

(** The client the module creates when both credentials are present. *)
Definition remote : Client := createClient supabaseUrl supabaseKey.

(** The three ways a query fails to deliver rows: the repository is not
    configured, the awaited call throws, or the client reports an error. *)
Definition failed {D} (o : Completion (Response D)) : Prop :=
  isSupabaseConfigured = false
  \/ (exists e, o = Throw e)
  \/ (exists d err, o = Normal (mkResponse d (Some err))).

End Repository.

(** *** Concrete process states used to exercise the repository *)

Definition envConfigured : ImportMetaEnv :=
  mkEnv (Some (js "https://project.supabase.co")) (Some (js "anon-key")).

Definition envMissing : ImportMetaEnv := mkEnv None None.

Definition clock0 : nat -> Z := fun _ => 0%Z.

Definition noRows : PostgrestError :=
  mkError (js "JSON object requested, multiple (or no) rows returned")
          [] [] (js "PGRST116").

(** A reachable server holding [rows]; it applies the [limit] of a query and
    answers [single()] with the row when it holds exactly one. *)
Definition tableClient (rows : list JsObject) : Client :=
  mkClient
    (fun q => Normal (mkResponse
                        (Some (match q_limit q with
                               | Some n => take n rows
                               | None => rows
                               end)) None))
    (fun q => match rows with
              | [row] => Normal (mkResponse (Some row) None)
              | _ => Normal (mkResponse None (Some noRows))
              end).

(** An unreachable server: every awaited call rejects. *)
Definition downClient : Client :=
  mkClient (fun _ => Throw (JStr (js "fetch failed")))
           (fun _ => Throw (JStr (js "fetch failed"))).

Definition archivedRow : JsObject :=
  {[ "id" := JStr (js "7"); "status" := JStr (js "archived");
     "location_type" := JStr (js "onsite") ]}.

Definition blankStatusRow : JsObject :=
  {[ "id" := JStr (js "8"); "status" := JStr [];
     "location_type" := JStr [] ]}.

End Supabase.

(** ** The Medium feed helpers ([src/lib/medium.ts]) *)

Module Medium.

(** Code units named by the patterns and literals of the module. *)
Definition LT : N := 60.
Definition GT : N := 62.
Definition SP : N := 32.
Definition DOT : N := 46.

(** The class [\s], which is also the set [trim] strips: WhiteSpace and
    LineTerminator of ECMAScript (TAB, LF, VT, FF, CR, SP, NBSP, U+1680,
    U+2000..U+200A, U+2028, U+2029, U+202F, U+205F, U+3000, U+FEFF). *)
Definition isWhiteSpace (c : N) : bool :=
  ((9 <=? c) && (c <=? 13) || (c =? 32) || (c =? 160) || (c =? 5760)
   || (8192 <=? c) && (c <=? 8202) || (c =? 8232) || (c =? 8233)
   || (c =? 8239) || (c =? 8287) || (c =? 12288) || (c =? 65279))%N.

(** *** The two regular expressions

    A pattern is run at the front of the remaining input and yields the
    number of code units of its match there, if it matches. *)
Abbreviation Pattern := (ustring -> option nat).

(** [[^>]*>]: the greedy run of non-[>] units must be followed by [>], so
    the match ends at the first [>]; without one, backtracking fails. *)
Fixpoint upToGt (s : ustring) : option nat :=
  match s with
  | [] => None
  | c :: s' => if (c =? GT)%N then Some 1 else S <$> upToGt s'
  end.

(** [/<[^>]*>/] *)
Definition tagPattern : Pattern := fun s =>
  match s with
  | [] => None
  | c :: s' => if (c =? LT)%N then S <$> upToGt s' else None
  end.

(** The length of the longest prefix of whitespace. *)
Fixpoint spanSpace (s : ustring) : nat :=
  match s with
  | [] => 0
  | c :: s' => if isWhiteSpace c then S (spanSpace s') else 0
  end.

(** [/\s+/] *)
Definition spacePattern : Pattern := fun s =>
  match spanSpace s with
  | 0 => None
  | S n => Some (S n)
  end.

(** *** String methods *)

(** [s.replace(re, rep)] for a global [re] that never matches the empty
    string and a replacement without [$] patterns: scanning left to right,
    each match found at the current position is replaced and scanning
    resumes after it.  [skip] counts the units of the current match that
    are still to be passed over. *)
Fixpoint replace_from (re : Pattern) (rep : ustring) (skip : nat) (s : ustring)
  : ustring :=
  match s with
  | [] => []
  | c :: s' =>
      match skip with
      | S k => replace_from re rep k s'
      | 0 =>
          match re s with
          | Some (S n) => rep ++ replace_from re rep n s'
          | _ => c :: replace_from re rep 0 s'
          end
      end
  end.

Definition replaceAll (re : Pattern) (rep : ustring) (s : ustring) : ustring :=
  replace_from re rep 0 s.

Fixpoint trimStart (s : ustring) : ustring :=
  match s with
  | [] => []
  | c :: s' => if isWhiteSpace c then trimStart s' else s
  end.

Definition trimEnd (s : ustring) : ustring := rev (trimStart (rev s)).

Definition trim (s : ustring) : ustring := trimEnd (trimStart s).

(** [s.substring(start, end)]: both indices are clamped to [0, length] and
    swapped when out of order. *)
Definition clampIndex (len : nat) (i : Z) : nat :=
  Z.to_nat (Z.min (Z.max i 0) (Z.of_nat len)).

Definition substring (s : ustring) (start end_ : Z) : ustring :=
  let a := clampIndex (length s) start in
  let b := clampIndex (length s) end_ in
  take (Nat.max a b - Nat.min a b) (drop (Nat.min a b) s).

(** [s.split(re)] without a limit, for [re] without capture groups that
    never matches the empty string: the pieces between successive matches,
    the last piece running to the end of the string.  [piece] holds the
    units of the current piece, most recent first. *)
Fixpoint split_from (re : Pattern) (skip : nat) (piece : ustring) (s : ustring)
  : list ustring :=
  match s with
  | [] => [rev piece]
  | c :: s' =>
      match skip with
      | S k => split_from re k piece s'
      | 0 =>
          match re s with
          | Some (S n) => rev piece :: split_from re n [] s'
          | _ => split_from re 0 (c :: piece) s'
          end
      end
  end.

Definition split (re : Pattern) (s : ustring) : list ustring :=
  split_from re 0 [] s.

(** [arr.slice(start, end)]: a negative index counts from the end. *)
Definition relativeIndex (len : nat) (i : Z) : Z :=
  if (i <? 0)%Z then Z.max (Z.of_nat len + i) 0 else Z.min i (Z.of_nat len).

Definition slice {A} (l : list A) (start end_ : Z) : list A :=
  let k := relativeIndex (length l) start in
  let final := relativeIndex (length l) end_ in
  take (Z.to_nat (Z.max (final - k) 0)) (drop (Z.to_nat k) l).

(** [Math.ceil(a / b)] for integers [a >= 0] and [b > 0]; on the word counts
    of strings the floating-point quotient rounds up to the same integer. *)
Definition ceil_quot (a b : Z) : Z := (- ((- a) / b))%Z.

(** *** The feed *)

Definition MEDIUM_RSS_URL : ustring :=
  js "https://medium.com/feed/data-engineering-indonesia".

Record MediumArticle : Type := mkArticle {
  title : JsVal;
  link : JsVal;
  pubDate : JsVal;
  dc_creator : JsVal;
  categories : JsVal;
  content_encoded : JsVal
}.

(** What [parser.parseURL] fulfils with; [items] of a malformed feed may be
    missing. *)
Record Feed : Type := mkFeed { items : option (list JsObject) }.

Definition normalizeItem (item : JsObject) : MediumArticle :=
  {| title := prop item "title" ||| JStr [];
     link := prop item "link" ||| JStr [];
     pubDate := prop item "pubDate" ||| JStr [];
     dc_creator := prop item "dc:creator" ||| prop item "creator"
                   ||| JStr (js "DEI Team");
     categories := prop item "categories" ||| JArr [];
     content_encoded := prop item "content:encoded" ||| prop item "content"
                        ||| JStr [] |}.

Section Feed.

(** [parser.parseURL]: fetching and parsing either fulfils with a feed or
    rejects. *)
Variable parseURL : ustring -> Completion Feed.

Definition fetchMediumArticles (limit : option Z)
  : Completion (list MediumArticle) :=
  let limit := default 10%Z limit in
  try_catch
    (let* feed := parseURL MEDIUM_RSS_URL in
     let* its := deref (items feed) in
     ret (List.map normalizeItem (slice its 0 limit)))
    (fun _ => ret []).

End Feed.

Definition ellipsis : ustring := [DOT; DOT; DOT].

Definition extractExcerpt (content : ustring) (maxLength : option Z) : ustring :=
  let maxLength := default 200%Z maxLength in
  (* Remove HTML tags *)
  let plainText := replaceAll tagPattern [SP] content in
  (* Clean up whitespace *)
  let cleanText := trim (replaceAll spacePattern [SP] plainText) in
  (* Truncate *)
  if (Z.of_nat (length cleanText) <=? maxLength)%Z then cleanText
  else trim (substring cleanText 0 maxLength) ++ ellipsis.

Definition calculateReadingTime (content : ustring) : Z :=
  let wordsPerMinute := 200%Z in
  let plainText := replaceAll tagPattern [SP] content in
  let wordCount := length (split spacePattern (trim plainText)) in
  ceil_quot (Z.of_nat wordCount) wordsPerMinute.

(** *** Vocabulary of the specification *)

(** [s] contains a tag-shaped substring: some suffix of [s] starts with a
    match of [/<[^>]*>/]. *)
Fixpoint hasTag (s : ustring) : bool :=
  match s with
  | [] => false
  | _ :: s' => bool_decide (is_Some (tagPattern s)) || hasTag s'
  end.

(** Whitespace is collapsed: every whitespace unit is a single space that
    is not followed by another whitespace unit. *)
Fixpoint collapsed (s : ustring) : bool :=
  match s with
  | [] => true
  | c :: s' =>
      (if isWhiteSpace c
       then (c =? SP)%N && match s' with
                           | [] => true
                           | d :: _ => negb (isWhiteSpace d)
                           end
       else true) && collapsed s'
  end.

(** Collapsing as a one-pass scan: [inRun] tells whether the previous unit
    was whitespace. *)
Fixpoint squeeze (inRun : bool) (s : ustring) : ustring :=
  match s with
  | [] => []
  | c :: s' =>
      if isWhiteSpace c
      then (if inRun then squeeze true s' else SP :: squeeze true s')
      else c :: squeeze false s'
  end.

Definition startsWithSpace (s : ustring) : bool :=
  match s with
  | [] => false
  | c :: _ => isWhiteSpace c
  end.

(** Neither the first nor the last unit is whitespace. *)
Definition trimmed (s : ustring) : bool :=
  negb (startsWithSpace s) && negb (startsWithSpace (rev s)).

(** The text after tag stripping, whitespace collapsing and trimming
    ([cleanText] in [extractExcerpt]). *)
Definition cleaned (content : ustring) : ustring :=
  trim (replaceAll spacePattern [SP] (replaceAll tagPattern [SP] content)).

(** A word: one or more units, none of them whitespace. *)
Definition isWord (w : ustring) : Prop :=
  w <> [] /\ Forall (fun c => isWhiteSpace c = false) w.

(** A separator: one or more units, all of them whitespace. *)
Definition isGap (g : ustring) : Prop :=
  g <> [] /\ Forall (fun c => isWhiteSpace c = true) g.

(** The text made of the word [w] followed by the pairs (separator, word)
    of [rest]. *)
Definition joinWords (w : ustring) (rest : list (ustring * ustring)) : ustring :=
  w ++ concat (List.map (fun p => fst p ++ snd p) rest).

(** *** Concrete inputs *)

Definition testContent : ustring :=
  js "<p>This is a long article with <strong>HTML</strong> tags that should be stripped.</p>".

Definition itemFull : JsObject :=
  {[ "title" := JStr (js "Streaming 101"); "link" := JStr (js "https://medium.com/a");
     "pubDate" := JStr (js "2026-01-01"); "dc:creator" := JStr (js "Rani");
     "categories" := JArr [JStr (js "kafka")];
     "content:encoded" := JStr (js "<p>Hello</p>") ]}.

Definition itemBare : JsObject :=
  {[ "title" := JStr (js "Untitled draft") ]}.

Definition feedOf (its : list JsObject) : ustring -> Completion Feed :=
  fun _ => Normal (mkFeed (Some its)).

Definition feedDown : ustring -> Completion Feed :=
  fun _ => Throw (JStr (js "Request timeout")).

End Medium.

(** ** The image helper of [src/lib/medium.ts] *)

Module Image.
Import Medium.

Definition QUOTE : N := 34.

(** The literals of the pattern [<img[^>]+src=Q([^Q]+)Q], writing [Q] for
    the double quote. *)
Definition imgOpen : ustring := js "<img".
Definition srcEq : ustring := js "src=" ++ [QUOTE].

(** The rest of [s] after the literal [p], when [s] starts with [p]. *)
Fixpoint stripPrefix (p s : ustring) : option ustring :=
  match p, s with
  | [], _ => Some s
  | _ :: _, [] => None
  | a :: p', c :: s' => if (a =? c)%N then stripPrefix p' s' else None
  end.

(** [([^Q]+)Q]: the greedy run of non-quote units must be followed by a
    quote, so the capture is the text before the first quote. *)
Fixpoint upToQuote (s : ustring) : option ustring :=
  match s with
  | [] => None
  | c :: s' => if (c =? QUOTE)%N then Some [] else cons c <$> upToQuote s'
  end.

(** [src=Q([^Q]+)Q] at the front of [s]; the capture has at least one
    unit. *)
Definition srcAttr (s : ustring) : option ustring :=
  match stripPrefix srcEq s with
  | Some rest =>
      match upToQuote rest with
      | Some (c :: url) => Some (c :: url)
      | _ => None
      end
  | None => None
  end.

(** The rest of the pattern once [[^>]+] has matched at least one unit:
    being greedy, [[^>]+] first takes the next unit when that is not [>],
    and only when nothing matches further on is the attribute tried
    here. *)
Fixpoint srcAfter (s : ustring) : option ustring :=
  match s with
  | [] => None
  | c :: s' =>
      match (if (c =? GT)%N then None else srcAfter s') with
      | Some url => Some url
      | None => srcAttr s
      end
  end.

(** The whole pattern at the front of [s]; yields capture group 1. *)
Definition imgPattern (s : ustring) : option ustring :=
  match stripPrefix imgOpen s with
  | Some (c :: rest) => if (c =? GT)%N then None else srcAfter rest
  | _ => None
  end.

(** [content.match(re)] for a pattern without the g flag finds the leftmost
    match; [extractFirstImage] returns its group 1, or [undefined]. *)
Fixpoint extractFirstImage (content : ustring) : option ustring :=
  match content with
  | [] => None
  | _ :: rest =>
      match imgPattern content with
      | Some url => Some url
      | None => extractFirstImage rest
      end
  end.

(** [content] holds an image tag whose source is [url]: the text [<img],
    one or more units other than [>], the text [src=] and a quote, the
    non-empty [url] without a quote, and a closing quote. *)
Definition imgWithSrc (content url : ustring) : Prop :=
  exists pre mid post,
    content = pre ++ imgOpen ++ mid ++ srcEq ++ url ++ QUOTE :: post
    /\ mid <> [] /\ ~ In GT mid /\ url <> [] /\ ~ In QUOTE url.

Definition imageContent : ustring :=
  js "<p>Intro</p><img src=" ++ QUOTE :: js "https://example.com/image.jpg"
  ++ QUOTE :: js " alt=" ++ QUOTE :: js "Test" ++ QUOTE
  :: js " /><p>More content</p>".

Definition lazyImageContent : ustring :=
  js "<img src=" ++ QUOTE :: js "a.png" ++ QUOTE :: js " data-src="
  ++ QUOTE :: js "b.png" ++ QUOTE :: js ">".

End Image.

(** ** The event factory of the test suite ([tests/utils/helpers.ts]) *)

Module Helpers.

(** The properties [createMockEvent] writes before spreading [overrides];
    [uuid] is the result of [crypto.randomUUID()] and [now] the clock
    reading of [new Date()]. *)
Definition mockDefaults (uuid : ustring) (now : Z) : JsObject :=
  {[ "id" := JStr uuid;
     "title" := JStr (js "Test Event");
     "slug" := JStr (js "test-event");
     "description" := JStr (js "Test description");
     "excerpt" := JStr (js "Test excerpt");
     "startDate" := JDateNow now;
     "timezone" := JStr (js "Asia/Jakarta");
     "locationType" := JStr (js "virtual");
     "category" := JStr (js "Workshop");
     "status" := JStr (js "upcoming");
     "isFeatured" := JBool false ]}.

Definition mockKeys : list string :=
  ["id"; "title"; "slug"; "description"; "excerpt"; "startDate"; "timezone";
   "locationType"; "category"; "status"; "isFeatured"]%string.

(** [{ ...defaults, ...overrides }]: a property of [overrides] replaces the
    default of the same name; [overrides] is [{}] when omitted. *)
Definition createMockEvent (uuid : ustring) (now : Z)
    (overrides : option JsObject) : JsObject :=
  let overrides := default ∅ overrides in
  overrides ∪ mockDefaults uuid now.

Definition workshopOverrides : JsObject :=
  {[ "title" := JStr (js "Test Workshop"); "slug" := JStr (js "test-workshop");
     "venue" := JUndefined ]}.

End Helpers.

(** ** Vocabulary for the rows of the event table *)

Module Rows.

(** The columns of the [events] table that [mapDbEventToEvent] reads. *)
Definition eventColumns : list string :=
  ["id"; "title"; "slug"; "description"; "excerpt"; "start_date"; "end_date";
   "timezone"; "location_type"; "venue"; "address"; "city"; "virtual_link";
   "cover_image"; "category"; "tags"; "status"; "registration_url";
   "max_attendees"; "registered_count"; "created_at"; "updated_at";
   "published_at"; "is_featured"]%string.

(** [v == null]. *)
Definition nullish (v : JsVal) : bool :=
  match v with
  | JUndefined | JNull => true
  | _ => false
  end.

(** A server whose [single()] finds [row] without reporting an error. *)
Definition foundClient (row : JsObject) : Supabase.Client :=
  Supabase.mkClient
    (fun _ => Normal (Supabase.mkResponse (Some [row]) None))
    (fun _ => Normal (Supabase.mkResponse (Some row) None)).


End Rows.

(** ** Properties of the event repository *)

Module SupabaseSpec.
Import Supabase.

Section Outcomes.

Variable env : ImportMetaEnv.
Variable createClient : ustring -> ustring -> Client.
Variable clock : nat -> Z.

Lemma configured_client :
  isSupabaseConfigured env createClient = true ->
  supabase env createClient = Some (remote env createClient).
Proof.
  unfold isSupabaseConfigured, supabase, remote.
  destruct (nonempty _ && nonempty _); [reflexivity | discriminate].
Qed.

Lemma missing_credentials :
  PUBLIC_SUPABASE_URL env = None \/ PUBLIC_SUPABASE_ANON_KEY env = None ->
  isSupabaseConfigured env createClient = false.
Proof.
  unfold isSupabaseConfigured, supabase, supabaseUrl, supabaseKey.
  intros [-> | ->]; cbn; [reflexivity |].
  destruct (nonempty _); reflexivity.
Qed.

(** Enter the body of an operation: the unconfigured branch returns at
    once; in the configured branch the client is [remote]. *)
Ltac when_configured :=
  match goal with
  | |- context [isSupabaseConfigured ?e ?mk] =>
      let Hc := fresh "Hc" in
      destruct (isSupabaseConfigured e mk) eqn:Hc; cbn;
      [| solve [reflexivity | eauto]];
      rewrite (configured_client Hc); cbn
  end.

Ltac by_failure Hf :=
  destruct Hf as [Hf | [[? ->] | (? & ? & ->)]]; [congruence | reflexivity ..].

Lemma getEvents_failed :
  failed env createClient
    (await_rows (remote env createClient) eventsQuery) ->
  getEvents env createClient clock = Normal (sampleEvents clock).
Proof.
  unfold getEvents. intros Hf. when_configured. by_failure Hf.
Qed.

Lemma getEventBySlug_failed s :
  failed env createClient
    (await_single (remote env createClient) (slugQuery s)) ->
  getEventBySlug env createClient clock s = Normal (sampleBySlug clock s).
Proof.
  unfold getEventBySlug. intros Hf. when_configured. by_failure Hf.
Qed.

Lemma getFeaturedEvents_failed :
  failed env createClient
    (await_rows (remote env createClient) featuredQuery) ->
  getFeaturedEvents env createClient clock
  = Normal (filterEvents isFeatured (sampleEvents clock)).
Proof.
  unfold getFeaturedEvents. intros Hf. when_configured. by_failure Hf.
Qed.

Lemma getEvents_returns : returns (getEvents env createClient clock).
Proof.
  unfold getEvents, returns. when_configured.
  destruct (await_rows (remote env createClient) eventsQuery)
    as [[[rows|] [err|]]|e]; cbn; eauto.
Qed.

Lemma getEventBySlug_returns s :
  returns (getEventBySlug env createClient clock s).
Proof.
  unfold getEventBySlug, returns. when_configured.
  destruct (await_single (remote env createClient) (slugQuery s))
    as [[[row|] [err|]]|e]; cbn; eauto.
Qed.

Lemma getFeaturedEvents_cases :
  getFeaturedEvents env createClient clock
  = Normal (filterEvents isFeatured (sampleEvents clock))
  \/ exists row rows err,
       isSupabaseConfigured env createClient = true
       /\ await_rows (remote env createClient) featuredQuery
          = Normal (mkResponse (Some (row :: rows)) err)
       /\ getFeaturedEvents env createClient clock
          = Normal (List.map mapDbEventToEvent (row :: rows)).
Proof.
  unfold getFeaturedEvents. when_configured.
  destruct (await_rows (remote env createClient) featuredQuery)
    as [[[[|row rows]|] [err|]]|e]; cbn; eauto.
  right. exists row, rows, None. eauto.
Qed.

End Outcomes.

Lemma sampleEvents_ids clock :
  List.map id (sampleEvents clock) = [JStr (js "1"); JStr (js "2")].
Proof. reflexivity. Qed.

Lemma sampleEvents_all_featured clock :
  filterEvents isFeatured (sampleEvents clock) = sampleEvents clock.
Proof. reflexivity. Qed.

(** The slug lookups of the specification, on an unconfigured repository. *)
Example getEventBySlug_sample clock :
  getEventBySlug envMissing (fun _ _ => downClient) clock
    (js "intro-to-data-engineering")
  = Normal (head (sampleEvents clock)).
Proof. reflexivity. Qed.

Example getEventBySlug_nonexistent clock :
  getEventBySlug envMissing (fun _ _ => downClient) clock (js "nonexistent")
  = Normal None.
Proof. reflexivity. Qed.

(** C1. Whenever the repository is not configured (endpoint or key missing),
    or the awaited query throws, or the client reports an error, [getEvents]
    returns exactly the sample event set: two events, with ids '1' and '2',
    in the hardcoded order. *)
Theorem getEvents_fallback env createClient clock :
  PUBLIC_SUPABASE_URL env = None
  \/ PUBLIC_SUPABASE_ANON_KEY env = None
  \/ failed env createClient
       (await_rows (remote env createClient) eventsQuery) ->
  getEvents env createClient clock = Normal (sampleEvents clock)
  /\ length (sampleEvents clock) = 2
  /\ List.map id (sampleEvents clock) = [JStr (js "1"); JStr (js "2")].
Proof.
  intros H. split; [| split; reflexivity].
  apply getEvents_failed.
  destruct H as [H | [H | H]]; [left | left | exact H];
    apply missing_credentials; auto.
Qed.

Lemma getEvents_fallback_witness :
  getEvents envConfigured (fun _ _ => downClient) clock0
  = Normal (sampleEvents clock0)
  /\ length (sampleEvents clock0) = 2
  /\ List.map id (sampleEvents clock0) = [JStr (js "1"); JStr (js "2")].
Proof.
  apply (getEvents_fallback envConfigured (fun _ _ => downClient) clock0).
  right. right. right. left. eexists. reflexivity.
Defined.

(** C2. With a configured repository and a query that succeeds with an empty
    row array, [getEvents] returns the empty sequence, not the sample event
    set; [getFeaturedEvents] on the same server does fall back. *)
Theorem getEvents_zero_rows clock :
  await_rows (remote envConfigured (fun _ _ => tableClient [])) eventsQuery
  = Normal (mkResponse (Some []) None)
  /\ getEvents envConfigured (fun _ _ => tableClient []) clock = Normal []
  /\ getEvents envConfigured (fun _ _ => tableClient []) clock
     <> Normal (sampleEvents clock)
  /\ getFeaturedEvents envConfigured (fun _ _ => tableClient []) clock
     = Normal (filterEvents isFeatured (sampleEvents clock)).
Proof. repeat split. discriminate. Qed.

(** C3. Whatever the configuration and whatever the awaited query does,
    [getEvents], [getEventBySlug] and [getFeaturedEvents] return a value and
    never throw; and each kind of failure (not configured, error reported by
    the client, exception thrown) yields the fallback of the operation. *)
Theorem repository_never_throws env createClient clock s :
  (returns (getEvents env createClient clock)
   /\ returns (getEventBySlug env createClient clock s)
   /\ returns (getFeaturedEvents env createClient clock))
  /\ (failed env createClient
        (await_rows (remote env createClient) eventsQuery) ->
      getEvents env createClient clock = Normal (sampleEvents clock))
  /\ (failed env createClient
        (await_single (remote env createClient) (slugQuery s)) ->
      getEventBySlug env createClient clock s
      = Normal (sampleBySlug clock s))
  /\ (failed env createClient
        (await_rows (remote env createClient) featuredQuery) ->
      getFeaturedEvents env createClient clock
      = Normal (filterEvents isFeatured (sampleEvents clock))).
Proof.
  split; [split; [| split] |].
  - apply getEvents_returns.
  - apply getEventBySlug_returns.
  - destruct (getFeaturedEvents_cases env createClient clock)
      as [H | (row & rows & err & _ & _ & H)]; rewrite H; eexists; reflexivity.
  - split; [apply getEvents_failed |].
    split; [apply getEventBySlug_failed | apply getFeaturedEvents_failed].
Qed.

Lemma repository_never_throws_witness :
  getEvents envConfigured (fun _ _ => downClient) clock0
  = Normal (sampleEvents clock0)
  /\ getEventBySlug envConfigured (fun _ _ => tableClient []) clock0
       (js "intro-to-data-engineering")
     = Normal (sampleBySlug clock0 (js "intro-to-data-engineering"))
  /\ getFeaturedEvents envMissing (fun _ _ => downClient) clock0
     = Normal (filterEvents isFeatured (sampleEvents clock0)).
Proof.
  split; [| split].
  - apply (repository_never_throws envConfigured (fun _ _ => downClient)
             clock0 []).
    right. left. eexists. reflexivity.
  - apply (repository_never_throws envConfigured (fun _ _ => tableClient [])
             clock0 (js "intro-to-data-engineering")).
    right. right. do 2 eexists. reflexivity.
  - apply (repository_never_throws envMissing (fun _ _ => downClient)
             clock0 []).
    left. reflexivity.
Defined.





(** C5, as stated, fails: a row whose [status] and [location_type] are
    present and hold the empty string, a value outside both enumerations,
    is mapped to the defaults ['upcoming'] and ['virtual']. *)
Lemma mapDbEventToEvent_blank_substituted :
  blankStatusRow !! "status" = Some (JStr [])
  /\ blankStatusRow !! "location_type" = Some (JStr [])
  /\ ~ In (JStr []) statusValues
  /\ ~ In (JStr []) locationTypeValues
  /\ status (mapDbEventToEvent blankStatusRow) = JStr (js "upcoming")
  /\ status (mapDbEventToEvent blankStatusRow) <> JStr []
  /\ locationType (mapDbEventToEvent blankStatusRow) = JStr (js "virtual")
  /\ locationType (mapDbEventToEvent blankStatusRow) <> JStr [].
Proof.
  repeat split; try reflexivity; try discriminate;
    cbn; intuition discriminate.
Qed.

(** C5, amended. A [status] or [location_type] that is present with a truthy
    value outside the enumeration (any non-empty string, non-zero number,
    [true], array or object) is passed through unchanged; a falsy one
    (the empty string, [0], [false], [null]) is replaced by the default. *)
Theorem mapDbEventToEvent_passthrough (row : JsObject) (v : JsVal) :
  (row !! "status" = Some v -> ~ In v statusValues -> truthy v = true ->
   status (mapDbEventToEvent row) = v)
  /\ (row !! "location_type" = Some v -> ~ In v locationTypeValues ->
      truthy v = true ->
      locationType (mapDbEventToEvent row) = v)
  /\ (row !! "status" = Some v -> truthy v = false ->
      status (mapDbEventToEvent row) = JStr (js "upcoming"))
  /\ (row !! "location_type" = Some v -> truthy v = false ->
      locationType (mapDbEventToEvent row) = JStr (js "virtual")).
Proof.
  unfold mapDbEventToEvent, prop, or_else; cbn.
  repeat split.
  - intros -> _ Ht. cbn. rewrite Ht. reflexivity.
  - intros -> _ Ht. cbn. rewrite Ht. reflexivity.
  - intros -> Ht. cbn. rewrite Ht. reflexivity.
  - intros -> Ht. cbn. rewrite Ht. reflexivity.
Qed.

Lemma mapDbEventToEvent_passthrough_witness :
  status (mapDbEventToEvent archivedRow) = JStr (js "archived")
  /\ locationType (mapDbEventToEvent archivedRow) = JStr (js "onsite")
  /\ status (mapDbEventToEvent blankStatusRow) = JStr (js "upcoming").
Proof.
  split; [| split].
  - apply (mapDbEventToEvent_passthrough archivedRow (JStr (js "archived")));
      [reflexivity | cbn; intuition discriminate | reflexivity].
  - apply (mapDbEventToEvent_passthrough archivedRow (JStr (js "onsite")));
      [reflexivity | cbn; intuition discriminate | reflexivity].
  - apply (mapDbEventToEvent_passthrough blankStatusRow (JStr []));
      reflexivity.
Defined.

End SupabaseSpec.

(** ** Properties of the Medium feed helpers *)

Module MediumSpec.
Import Medium.

(** *** The model on the inputs of the test suite *)

Example isWhiteSpace_units :
  List.map isWhiteSpace [9; 10; 13; 32; 160; 5760; 8192; 8202; 8232; 12288; 65279]%N
  = repeat true 11
  /\ List.map isWhiteSpace [0; 8; 14; 33; 60; 62; 133; 6158; 8203; 65278]%N
     = repeat false 10.
Proof. split; reflexivity. Qed.

Example replaceAll_tags :
  replaceAll tagPattern [SP] (js "a<b<c>d>e<f") = js "a d>e<f".
Proof. reflexivity. Qed.

Example extractExcerpt_test :
  extractExcerpt testContent (Some 50%Z)
  = js "This is a long article with HTML tags that should...".
Proof. reflexivity. Qed.

Example split_words :
  split spacePattern (js "a  b c") = [js "a"; js "b"; js "c"]
  /\ split spacePattern (js "a ") = [js "a"; []]
  /\ split spacePattern [] = [[]].
Proof. repeat split. Qed.

Example calculateReadingTime_counts :
  calculateReadingTime (concat (repeat (js "word ") 200)) = 1%Z
  /\ calculateReadingTime (concat (repeat (js "word ") 201)) = 2%Z
  /\ calculateReadingTime (js "<p>two words</p>") = 1%Z.
Proof. repeat split; vm_compute; reflexivity. Qed.

(** *** Scanning with a pattern *)

Lemma replace_from_drop re rep n s :
  replace_from re rep n s = replace_from re rep 0 (drop n s).
Proof.
  revert n. induction s as [|c s IH]; intros [|n]; try reflexivity.
  cbn [replace_from drop]. apply IH.
Qed.

Lemma split_from_drop re n piece s :
  split_from re n piece s = split_from re 0 piece (drop n s).
Proof.
  revert n. induction s as [|c s IH]; intros [|n]; try reflexivity.
  cbn [split_from drop]. apply IH.
Qed.

(** A unit of the output of a replacement by a space is that space or a
    unit of the input. *)
Lemma replace_from_In re n s x :
  In x (replace_from re [SP] n s) -> x = SP \/ In x s.
Proof.
  revert n. induction s as [|c s IH]; intros n; cbn [replace_from].
  - intros [].
  - destruct n as [|n].
    + destruct (re (c :: s)) as [[|k]|]; cbn; intros [H | H]; auto;
        apply IH in H; tauto.
    + intros H. apply IH in H. cbn. tauto.
Qed.

(** *** The tag pattern *)

Lemma upToGt_None s : upToGt s = None <-> ~ In GT s.
Proof.
  induction s as [|c s IH]; cbn.
  - tauto.
  - destruct (N.eqb_spec c GT) as [-> | Hne].
    + split; [discriminate | tauto].
    + destruct (upToGt s); cbn; split; try discriminate; intuition congruence.
Qed.

Lemma tagPattern_cons c s :
  tagPattern (c :: s) = None <-> (c = LT -> ~ In GT s).
Proof.
  cbn. destruct (N.eqb_spec c LT) as [-> | Hne].
  - rewrite <- upToGt_None. destruct (upToGt s); cbn; split;
      intros H; try discriminate; auto. specialize (H eq_refl). discriminate.
  - split; [congruence | reflexivity].
Qed.

(** The tag pattern matches at the front exactly when the input starts
    with [<] and holds a [>] later; the match ends at the first such [>]. *)
Lemma upToGt_Some s n :
  upToGt s = Some n <->
  exists body rest,
    s = body ++ GT :: rest /\ ~ In GT body /\ n = S (length body).
Proof.
  revert n. induction s as [|c s IH]; intros n; cbn.
  - split; [discriminate |]. intros (body & rest & E & _).
    destruct body; discriminate.
  - destruct (N.eqb_spec c GT) as [-> | Hne].
    + split.
      * intros [= <-]. exists [], s. cbn. tauto.
      * intros (body & rest & E & Hb & ->).
        destruct body as [|d body]; [reflexivity |].
        injection E as <- _. destruct Hb. left. reflexivity.
    + split.
      * destruct (upToGt s) as [k|] eqn:Eu; cbn; intros [= <-].
        destruct (proj1 (IH k) eq_refl) as (body & rest & -> & Hb & ->).
        exists (c :: body), rest. cbn. intuition congruence.
      * intros (body & rest & E & Hb & ->).
        destruct body as [|d body]; injection E as -> E; [congruence |].
        assert (upToGt s = Some (S (length body))) as ->; [| reflexivity].
        apply IH. exists body, rest. cbn in Hb. tauto.
Qed.

Lemma tagPattern_Some s n :
  tagPattern s = Some n <->
  exists body rest,
    s = LT :: body ++ GT :: rest /\ ~ In GT body /\ n = 2 + length body.
Proof.
  destruct s as [|c s]; cbn.
  - split; [discriminate |]. intros (? & ? & [=] & _).
  - destruct (N.eqb_spec c LT) as [-> | Hne].
    + destruct (upToGt s) as [k|] eqn:E; cbn.
      * apply upToGt_Some in E as (body & rest & -> & Hb & ->). split.
        -- intros [= <-]. exists body, rest. tauto.
        -- intros (body' & rest' & [= E'] & Hb' & ->). do 2 f_equal.
           assert (upToGt (body' ++ GT :: rest') = Some (S (length body')))
             as H1 by (apply upToGt_Some; eauto).
           assert (upToGt (body ++ GT :: rest) = Some (S (length body)))
             as H2 by (apply upToGt_Some; eauto).
           rewrite E' in H2. congruence.
      * split; [discriminate |]. intros (body & rest & [= ->] & Hb & ->).
        assert (upToGt (body ++ GT :: rest) = Some (S (length body)))
          as H1 by (apply upToGt_Some; eauto).
        congruence.
    + split; [discriminate |]. intros (? & ? & [= E _] & _). congruence.
Qed.

Lemma tagPattern_positive s : tagPattern s <> Some 0.
Proof.
  destruct s as [|c s]; cbn; [discriminate |].
  destruct (c =? LT)%N; [| discriminate].
  destruct (upToGt s); discriminate.
Qed.

Lemma hasTag_cons c s :
  hasTag (c :: s) = false <-> (c = LT -> ~ In GT s) /\ hasTag s = false.
Proof.
  cbn [hasTag]. rewrite orb_false_iff, bool_decide_eq_false.
  rewrite <- tagPattern_cons.
  destruct (tagPattern (c :: s)) as [k|]; split; intros [H1 H2]; split;
    auto; try discriminate; try (intros [? ?]; discriminate).
  all: exfalso; apply H1; eexists; reflexivity.
Qed.

Lemma In_GT_dec (s : ustring) : In GT s \/ ~ In GT s.
Proof. destruct (in_dec N.eq_dec GT s); auto. Qed.

(** A tag-shaped substring is a [<] with a [>] somewhere after it. *)
Lemma hasTag_spec s :
  hasTag s = true <-> exists l1 l2 l3, s = l1 ++ LT :: l2 ++ GT :: l3.
Proof.
  induction s as [|c s IH].
  - split; [discriminate |]. intros (l1 & l2 & l3 & H).
    destruct l1; discriminate.
  - destruct (hasTag (c :: s)) eqn:E.
    + split; [intros _ | reflexivity].
      destruct (hasTag s) eqn:Es.
      * destruct (proj1 IH eq_refl) as (l1 & l2 & l3 & ->).
        exists (c :: l1), l2, l3. reflexivity.
      * cbn [hasTag] in E. rewrite Es, orb_false_r in E.
        apply bool_decide_eq_true in E. destruct E as [k E].
        destruct (N.eqb_spec c LT) as [-> | Hne].
        -- assert (HG : In GT s).
           { destruct (upToGt s) eqn:Eu.
             - destruct (In_GT_dec s) as [H | H]; [assumption |].
               apply upToGt_None in H. congruence.
             - cbn in E. rewrite Eu in E. discriminate. }
           apply in_split in HG as (l2 & l3 & ->).
           exists [], l2, l3. reflexivity.
        -- cbn in E. apply N.eqb_neq in Hne. rewrite Hne in E. discriminate.
    + split; [discriminate |]. intros (l1 & l2 & l3 & H).
      apply hasTag_cons in E as [E1 E2].
      destruct l1 as [|d l1]; cbn in H; injection H as -> ->.
      * exfalso. apply E1; [reflexivity |]. apply in_or_app. right. left.
        reflexivity.
      * assert (hasTag (l1 ++ LT :: l2 ++ GT :: l3) = true) by
          (apply IH; eauto). congruence.
Qed.

Lemma hasTag_app l1 l2 :
  hasTag (l1 ++ l2) = false -> hasTag l1 = false /\ hasTag l2 = false.
Proof.
  induction l1 as [|c l1 IH]; cbn [app]; [auto |].
  rewrite !hasTag_cons. intros [H1 H2]. destruct (IH H2) as [IH1 IH2].
  repeat split; auto. intros Hc Hin. apply (H1 Hc), in_or_app. auto.
Qed.

Lemma hasTag_app_intro l1 l2 :
  hasTag l1 = false -> hasTag l2 = false -> ~ In GT l2 ->
  hasTag (l1 ++ l2) = false.
Proof.
  intros H1 H2 Hgt. induction l1 as [|c l1 IH]; cbn [app]; [assumption |].
  apply hasTag_cons in H1 as [Hc H1]. apply hasTag_cons. split; [| auto].
  intros E Hin. apply in_app_or in Hin as [Hin | Hin]; [exact (Hc E Hin) | auto].
Qed.

(** Replacing matches by a space never creates a tag. *)
Lemma hasTag_replace re n s :
  hasTag s = false -> hasTag (replace_from re [SP] n s) = false.
Proof.
  revert n. induction s as [|c s IH]; intros n H; [reflexivity |].
  apply hasTag_cons in H as [Hc H]. cbn [replace_from].
  destruct n as [|n]; [| auto].
  assert (Hkeep : hasTag (c :: replace_from re [SP] 0 s) = false).
  { apply hasTag_cons. split; [| auto].
    intros E Hin. apply replace_from_In in Hin as [Hin | Hin];
      [discriminate | exact (Hc E Hin)]. }
  destruct (re (c :: s)) as [[|k]|]; try exact Hkeep.
  cbn [app]. apply hasTag_cons. split; [discriminate | auto].
Qed.

(** After the tag pattern has been replaced everywhere, no tag is left. *)
Lemma hasTag_strip n s : hasTag (replace_from tagPattern [SP] n s) = false.
Proof.
  revert n. induction s as [|c s IH]; intros n; [reflexivity |].
  cbn [replace_from]. destruct n as [|n]; [| auto].
  destruct (tagPattern (c :: s)) as [[|k]|] eqn:E.
  - destruct (tagPattern_positive _ E).
  - cbn [app]. apply hasTag_cons. split; [discriminate | auto].
  - apply hasTag_cons. split; [| auto].
    intros Hc Hin. apply replace_from_In in Hin as [Hin | Hin];
      [discriminate |].
    exact (proj1 (tagPattern_cons c s) E Hc Hin).
Qed.

(** Text without tags is left alone by the tag replacement. *)
Lemma replaceAll_no_tag rep s :
  hasTag s = false -> replaceAll tagPattern rep s = s.
Proof.
  unfold replaceAll. induction s as [|c s IH]; intros H; [reflexivity |].
  apply hasTag_cons in H as [Hc H]. cbn [replace_from].
  rewrite (proj2 (tagPattern_cons c s) Hc), (IH H). reflexivity.
Qed.

(** *** Whitespace *)

Lemma isWhiteSpace_SP : isWhiteSpace SP = true.
Proof. reflexivity. Qed.

Lemma spacePattern_cons c s :
  spacePattern (c :: s)
  = if isWhiteSpace c then Some (S (spanSpace s)) else None.
Proof. unfold spacePattern. cbn. destruct (isWhiteSpace c); reflexivity. Qed.

Lemma replace_space_squeeze s :
  replace_from spacePattern [SP] (spanSpace s) s = squeeze true s
  /\ replace_from spacePattern [SP] 0 s = squeeze false s.
Proof.
  induction s as [|c s [IHa IHb]]; [split; reflexivity |].
  cbn [replace_from spanSpace squeeze]. rewrite spacePattern_cons.
  destruct (isWhiteSpace c); cbn [app]; rewrite ?IHa, ?IHb; split; reflexivity.
Qed.

Lemma replaceAll_space s : replaceAll spacePattern [SP] s = squeeze false s.
Proof. apply replace_space_squeeze. Qed.

Lemma squeeze_true_head s : startsWithSpace (squeeze true s) = false.
Proof.
  induction s as [|c s IH]; [reflexivity |]. cbn.
  destruct (isWhiteSpace c) eqn:E; [exact IH | cbn; exact E].
Qed.

Lemma collapsed_cons c s :
  collapsed (c :: s) = true <->
  (isWhiteSpace c = true -> c = SP /\ startsWithSpace s = false)
  /\ collapsed s = true.
Proof.
  cbn [collapsed]. rewrite andb_true_iff.
  destruct (isWhiteSpace c); [| intuition discriminate].
  rewrite andb_true_iff, N.eqb_eq.
  destruct s as [|d s]; cbn; [intuition |].
  rewrite negb_true_iff. intuition.
Qed.

Lemma collapsed_squeeze b s : collapsed (squeeze b s) = true.
Proof.
  revert b. induction s as [|c s IH]; intros b; [reflexivity |].
  cbn [squeeze]. destruct (isWhiteSpace c) eqn:E.
  - destruct b; [apply IH |]. apply collapsed_cons. split; [| apply IH].
    intros _. split; [reflexivity | apply squeeze_true_head].
  - apply collapsed_cons. split; [congruence | apply IH].
Qed.

Lemma squeeze_true_false s :
  startsWithSpace s = false -> squeeze true s = squeeze false s.
Proof. destruct s as [|c s]; [reflexivity |]. cbn. intros ->. reflexivity. Qed.

(** Collapsed text is left alone by the whitespace replacement. *)
Lemma squeeze_collapsed s : collapsed s = true -> squeeze false s = s.
Proof.
  induction s as [|c s IH]; intros H; [reflexivity |].
  apply collapsed_cons in H as [Hc H]. cbn [squeeze].
  destruct (isWhiteSpace c); [| rewrite (IH H); reflexivity].
  destruct (Hc eq_refl) as [-> Hs].
  rewrite (squeeze_true_false _ Hs), (IH H). reflexivity.
Qed.

Lemma collapsed_app l1 l2 :
  collapsed (l1 ++ l2) = true -> collapsed l1 = true /\ collapsed l2 = true.
Proof.
  induction l1 as [|c l1 IH]; cbn [app]; [auto |].
  rewrite !collapsed_cons. intros [Hc H]. destruct (IH H) as [IH1 IH2].
  repeat split; auto; destruct (Hc H0) as [? Hs]; [assumption |].
  destruct l1; [reflexivity | exact Hs].
Qed.

Lemma collapsed_app_intro l1 l2 :
  collapsed l1 = true -> collapsed l2 = true -> startsWithSpace l2 = false ->
  collapsed (l1 ++ l2) = true.
Proof.
  intros H1 H2 Hs. induction l1 as [|c l1 IH]; cbn [app]; [assumption |].
  apply collapsed_cons in H1 as [Hc H1]. apply collapsed_cons.
  split; [| auto]. intros E. destruct (Hc E) as [-> Hs1].
  split; [reflexivity |]. destruct l1; [exact Hs | exact Hs1].
Qed.

(** *** Trimming *)

Lemma trimStart_suffix s : exists l, s = l ++ trimStart s.
Proof.
  induction s as [|c s [l IH]]; [exists []; reflexivity |]. cbn.
  destruct (isWhiteSpace c); [| exists []; reflexivity].
  exists (c :: l). cbn. rewrite <- IH. reflexivity.
Qed.

Lemma trimEnd_prefix s : exists l, s = trimEnd s ++ l.
Proof.
  unfold trimEnd. destruct (trimStart_suffix (rev s)) as [l H].
  exists (rev l). rewrite <- rev_app_distr, <- H, rev_involutive. reflexivity.
Qed.

Lemma trimStart_head s : startsWithSpace (trimStart s) = false.
Proof.
  induction s as [|c s IH]; [reflexivity |]. cbn.
  destruct (isWhiteSpace c) eqn:E; [exact IH | cbn; exact E].
Qed.

Lemma trimStart_id s : startsWithSpace s = false -> trimStart s = s.
Proof. destruct s as [|c s]; [reflexivity |]. cbn. intros ->. reflexivity. Qed.

Lemma trimEnd_id s : startsWithSpace (rev s) = false -> trimEnd s = s.
Proof.
  intros H. unfold trimEnd. rewrite (trimStart_id _ H). apply rev_involutive.
Qed.

Lemma trimEnd_head s :
  startsWithSpace s = false -> startsWithSpace (trimEnd s) = false.
Proof.
  intros H. destruct (trimEnd_prefix s) as [l E].
  destruct (trimEnd s) as [|c t]; [reflexivity |].
  rewrite E in H. exact H.
Qed.

Lemma trimmed_trim s : trimmed (trim s) = true.
Proof.
  unfold trimmed, trim. rewrite (trimEnd_head _ (trimStart_head s)).
  unfold trimEnd. rewrite rev_involutive, trimStart_head. reflexivity.
Qed.

Lemma trim_id s : trimmed s = true -> trim s = s.
Proof.
  unfold trimmed, trim. rewrite andb_true_iff, !negb_true_iff.
  intros [H1 H2]. rewrite (trimStart_id _ H1). apply trimEnd_id, H2.
Qed.

Lemma trim_infix s : exists l1 l2, s = l1 ++ trim s ++ l2.
Proof.
  unfold trim. destruct (trimStart_suffix s) as [l1 H1].
  destruct (trimEnd_prefix (trimStart s)) as [l2 H2].
  exists l1, l2. rewrite <- H2. exact H1.
Qed.

Lemma length_trim s : length (trim s) <= length s.
Proof.
  destruct (trim_infix s) as (l1 & l2 & E).
  rewrite E at 2. rewrite !length_app. lia.
Qed.

Lemma hasTag_trim s : hasTag s = false -> hasTag (trim s) = false.
Proof.
  intros H. destruct (trim_infix s) as (l1 & l2 & E). rewrite E in H.
  apply hasTag_app in H as [_ H]. apply hasTag_app in H as [H _]. exact H.
Qed.

Lemma collapsed_trim s : collapsed s = true -> collapsed (trim s) = true.
Proof.
  intros H. destruct (trim_infix s) as (l1 & l2 & E). rewrite E in H.
  apply collapsed_app in H as [_ H]. apply collapsed_app in H as [H _].
  exact H.
Qed.

Lemma hasTag_take n s : hasTag s = false -> hasTag (take n s) = false.
Proof.
  intros H. rewrite <- (take_drop n s) in H.
  apply hasTag_app in H as [H _]. exact H.
Qed.

Lemma collapsed_take n s : collapsed s = true -> collapsed (take n s) = true.
Proof.
  intros H. rewrite <- (take_drop n s) in H.
  apply collapsed_app in H as [H _]. exact H.
Qed.

Lemma trimStart_spaces l s :
  Forall (fun c => isWhiteSpace c = true) l -> trimStart (l ++ s) = trimStart s.
Proof. induction 1 as [|c l Hc _ IH]; [reflexivity |]. cbn. rewrite Hc. exact IH. Qed.

Lemma trimStart_all l :
  Forall (fun c => isWhiteSpace c = true) l -> trimStart l = [].
Proof.
  intros H. rewrite <- (app_nil_r l). apply (trimStart_spaces l [] H).
Qed.

Lemma trim_padded l1 l2 s :
  Forall (fun c => isWhiteSpace c = true) l1 ->
  Forall (fun c => isWhiteSpace c = true) l2 ->
  trimmed s = true ->
  trim (l1 ++ s ++ l2) = s.
Proof.
  intros H1 H2 Hs. unfold trimmed in Hs.
  rewrite andb_true_iff, !negb_true_iff in Hs. destruct Hs as [Ha Hb].
  unfold trim. rewrite (trimStart_spaces _ _ H1).
  destruct s as [|c s].
  - cbn [app]. rewrite (trimStart_all _ H2). reflexivity.
  - rewrite trimStart_id by exact Ha. unfold trimEnd.
    rewrite rev_app_distr, trimStart_spaces by (apply Forall_rev; exact H2).
    rewrite (trimStart_id _ Hb). apply rev_involutive.
Qed.

(** *** The cleaned text of [extractExcerpt] *)

Lemma cleaned_no_tag content : hasTag (cleaned content) = false.
Proof.
  unfold cleaned. apply hasTag_trim. unfold replaceAll at 1.
  apply hasTag_replace. apply hasTag_strip.
Qed.

Lemma cleaned_collapsed content : collapsed (cleaned content) = true.
Proof.
  unfold cleaned. apply collapsed_trim. rewrite replaceAll_space.
  apply collapsed_squeeze.
Qed.

Lemma cleaned_trimmed content : trimmed (cleaned content) = true.
Proof. apply trimmed_trim. Qed.

Lemma cleaned_id s :
  hasTag s = false -> collapsed s = true -> trimmed s = true -> cleaned s = s.
Proof.
  intros Ht Hc Hs. unfold cleaned.
  rewrite (replaceAll_no_tag _ _ Ht), replaceAll_space,
    (squeeze_collapsed _ Hc).
  apply trim_id, Hs.
Qed.

Lemma substring_0 s (n : Z) : substring s 0 n = take (Z.to_nat n) s.
Proof.
  unfold substring, clampIndex.
  replace (Z.to_nat (Z.min (Z.max 0 0) (Z.of_nat (length s)))) with 0 by lia.
  rewrite Nat.max_0_l, Nat.min_0_l, Nat.sub_0_r, drop_0.
  destruct (Z_le_gt_dec (Z.max n 0) (Z.of_nat (length s))) as [H | H].
  - f_equal. lia.
  - rewrite !take_ge; [reflexivity | lia | lia].
Qed.

Lemma extractExcerpt_eq content maxLength :
  extractExcerpt content maxLength
  = if (Z.of_nat (length (cleaned content)) <=? default 200%Z maxLength)%Z
    then cleaned content
    else trim (take (Z.to_nat (default 200%Z maxLength)) (cleaned content))
         ++ ellipsis.
Proof. unfold extractExcerpt, cleaned. rewrite substring_0. reflexivity. Qed.

(** C7, as stated, fails: for a negative [maxLength] the result is the bare
    ellipsis, whose length 3 exceeds [maxLength + 3]. *)
Lemma extractExcerpt_negative_maxLength :
  extractExcerpt (js "a") (Some (-1)%Z) = js "..."
  /\ ~ (Z.of_nat (length (extractExcerpt (js "a") (Some (-1)%Z))) <= -1 + 3)%Z.
Proof.
  assert (E : extractExcerpt (js "a") (Some (-1)%Z) = js "...") by reflexivity.
  split; [exact E |]. rewrite E. cbn. lia.
Qed.

(** C7, amended. For every content and every [maxLength], the result of
    [extractExcerpt] contains no tag, has its whitespace collapsed to single
    spaces and is trimmed; it is the cleaned text itself when that has at
    most [maxLength] units, and otherwise (and only then) the trimmed first
    [maxLength] units of the cleaned text followed by the ellipsis.  For
    [maxLength >= 0] its length is at most [maxLength + 3]; for a negative
    [maxLength] it is the bare ellipsis. *)
Theorem extractExcerpt_spec content maxLength :
  let m := default 200%Z maxLength in
  let r := extractExcerpt content maxLength in
  hasTag r = false
  /\ collapsed r = true
  /\ trimmed r = true
  /\ ((Z.of_nat (length (cleaned content)) <= m)%Z -> r = cleaned content)
  /\ ((m < Z.of_nat (length (cleaned content)))%Z ->
      r = trim (take (Z.to_nat m) (cleaned content)) ++ ellipsis)
  /\ ((0 <= m)%Z -> (Z.of_nat (length r) <= m + 3)%Z)
  /\ ((m < 0)%Z -> r = ellipsis).
Proof.
  intros m r. subst r. rewrite extractExcerpt_eq. fold m.
  pose proof (cleaned_no_tag content) as Ht.
  pose proof (cleaned_collapsed content) as Hc.
  pose proof (cleaned_trimmed content) as Hs.
  destruct (Z.leb_spec (Z.of_nat (length (cleaned content))) m) as [Hle | Hgt].
  - repeat split; auto; lia.
  - set (t := trim (take (Z.to_nat m) (cleaned content))).
    assert (Hlen : length t <= Z.to_nat m).
    { etransitivity; [apply length_trim |]. rewrite length_take. lia. }
    assert (Hst : startsWithSpace t = false).
    { pose proof (trimmed_trim (take (Z.to_nat m) (cleaned content))) as H.
      fold t in H. unfold trimmed in H.
      rewrite andb_true_iff, !negb_true_iff in H. apply H. }
    repeat split.
    + apply hasTag_app_intro; [| reflexivity | cbn; intuition discriminate].
      apply hasTag_trim, hasTag_take, Ht.
    + apply collapsed_app_intro; [| reflexivity | reflexivity].
      apply collapsed_trim, collapsed_take, Hc.
    + unfold trimmed. rewrite rev_app_distr. cbn [rev ellipsis app].
      destruct t as [|c t]; [reflexivity |]. cbn in Hst |- *.
      rewrite Hst. reflexivity.
    + lia.
    + intros Hm. rewrite length_app. cbn [length ellipsis]. lia.
    + intros Hm. subst t. replace (Z.to_nat m) with 0 by lia. reflexivity.
Qed.

Lemma extractExcerpt_spec_witness :
  (Z.of_nat (length (extractExcerpt testContent (Some 50%Z))) <= 50 + 3)%Z
  /\ extractExcerpt testContent (Some 50%Z)
     = trim (take 50 (cleaned testContent)) ++ ellipsis
  /\ extractExcerpt (js "<b>Hi</b>  there") None = cleaned (js "<b>Hi</b>  there")
  /\ extractExcerpt (js "a") (Some (-1)%Z) = ellipsis.
Proof.
  pose proof (extractExcerpt_spec testContent (Some 50%Z)) as H1.
  pose proof (extractExcerpt_spec (js "<b>Hi</b>  there") None) as H2.
  pose proof (extractExcerpt_spec (js "a") (Some (-1)%Z)) as H3.
  cbv zeta in H1, H2, H3.
  destruct H1 as (_ & _ & _ & _ & H1b & H1c & _).
  destruct H2 as (_ & _ & _ & H2a & _).
  destruct H3 as (_ & _ & _ & _ & _ & _ & H3e).
  split; [| split; [| split]].
  - apply H1c. cbn. lia.
  - apply H1b. vm_compute. reflexivity.
  - apply H2a. vm_compute. discriminate.
  - apply H3e. cbn. lia.
Defined.

(** C9, as stated, fails: a short text without tags whose whitespace is
    collapsed but which starts with a space loses that space. *)
Lemma extractExcerpt_leading_space :
  hasTag (js " a") = false
  /\ collapsed (js " a") = true
  /\ (Z.of_nat (length (js " a")) <= 200)%Z
  /\ extractExcerpt (js " a") None = js "a"
  /\ extractExcerpt (js " a") None <> js " a".
Proof. repeat split; try reflexivity; [cbn; lia | discriminate]. Qed.

(** C9, amended. For every string [s] that contains no tag, whose
    whitespace is collapsed, that neither starts nor ends with whitespace
    and whose length does not exceed [maxLength], [extractExcerpt] returns
    [s] itself; in particular, applying [extractExcerpt] to the output of an
    application that did not truncate returns that output unchanged. *)
Theorem extractExcerpt_idempotent s content maxLength :
  let m := default 200%Z maxLength in
  (hasTag s = false -> collapsed s = true -> trimmed s = true ->
   (Z.of_nat (length s) <= m)%Z ->
   extractExcerpt s maxLength = s)
  /\ ((Z.of_nat (length (cleaned content)) <= m)%Z ->
      extractExcerpt (extractExcerpt content maxLength) maxLength
      = extractExcerpt content maxLength).
Proof.
  intros m.
  assert (Hfix : forall t, hasTag t = false -> collapsed t = true ->
                 trimmed t = true -> (Z.of_nat (length t) <= m)%Z ->
                 extractExcerpt t maxLength = t).
  { intros t Ht Hc Hs Hl. rewrite extractExcerpt_eq. fold m.
    rewrite (cleaned_id _ Ht Hc Hs).
    destruct (Z.leb_spec (Z.of_nat (length t)) m); [reflexivity | lia]. }
  split; [apply Hfix |].
  intros Hl.
  assert (E : extractExcerpt content maxLength = cleaned content).
  { rewrite extractExcerpt_eq. fold m.
    destruct (Z.leb_spec (Z.of_nat (length (cleaned content))) m);
      [reflexivity | lia]. }
  rewrite E. apply Hfix; auto using cleaned_no_tag, cleaned_collapsed,
    cleaned_trimmed.
Qed.

Lemma extractExcerpt_idempotent_witness :
  extractExcerpt (js "Hello data world") (Some 20%Z) = js "Hello data world"
  /\ extractExcerpt (extractExcerpt (js "<b>Hi</b>  there") None) None
     = extractExcerpt (js "<b>Hi</b>  there") None.
Proof.
  split.
  - apply (extractExcerpt_idempotent (js "Hello data world") [] (Some 20%Z));
      [reflexivity | reflexivity | reflexivity | cbn; lia].
  - apply (extractExcerpt_idempotent [] (js "<b>Hi</b>  there") None).
    vm_compute. discriminate.
Defined.

(** *** Splitting into words *)

Lemma split_from_nonempty re n piece s : 1 <= length (split_from re n piece s).
Proof.
  revert n piece. induction s as [|c s IH]; intros n piece; cbn; [lia |].
  destruct n as [|n]; [| apply IH].
  destruct (re (c :: s)) as [[|k]|]; cbn; auto; lia.
Qed.

Lemma split_from_word w piece s :
  Forall (fun c => isWhiteSpace c = false) w ->
  split_from spacePattern 0 piece (w ++ s)
  = split_from spacePattern 0 (rev w ++ piece) s.
Proof.
  intros H. revert piece. induction H as [|c w Hc _ IH]; intros piece;
    [reflexivity |].
  cbn [app split_from rev]. rewrite spacePattern_cons, Hc, IH, <- app_assoc.
  reflexivity.
Qed.

Lemma spanSpace_gap g s :
  Forall (fun c => isWhiteSpace c = true) g -> startsWithSpace s = false ->
  spanSpace (g ++ s) = length g.
Proof.
  intros H Hs. induction H as [|c g Hc _ IH]; cbn.
  - destruct s as [|d s]; [reflexivity |]. cbn in Hs |- *. rewrite Hs.
    reflexivity.
  - rewrite Hc, IH. reflexivity.
Qed.

Lemma split_from_gap g piece s :
  isGap g -> startsWithSpace s = false ->
  split_from spacePattern 0 piece (g ++ s)
  = rev piece :: split_from spacePattern 0 [] s.
Proof.
  intros [Hne Hg] Hs. destruct g as [|c g]; [congruence |].
  apply Forall_cons in Hg as [Hc Hg].
  cbn [app split_from]. rewrite spacePattern_cons, Hc.
  rewrite (spanSpace_gap _ _ Hg Hs), split_from_drop, drop_app_length.
  reflexivity.
Qed.

Lemma startsWithSpace_app l1 l2 :
  l1 <> [] -> startsWithSpace (l1 ++ l2) = startsWithSpace l1.
Proof. destruct l1; [congruence | reflexivity]. Qed.

Lemma word_head w : isWord w -> startsWithSpace w = false.
Proof.
  intros [Hne H]. destruct w as [|c w]; [reflexivity |].
  apply Forall_cons in H as [H _]. exact H.
Qed.

Lemma word_last w : isWord w -> startsWithSpace (rev w) = false.
Proof.
  intros [Hne H]. apply Forall_rev in H.
  destruct (rev w) as [|c t]; [reflexivity |].
  apply Forall_cons in H as [H _]. exact H.
Qed.

Lemma joinWords_cons w g w' rest :
  joinWords w ((g, w') :: rest) = w ++ g ++ joinWords w' rest.
Proof. unfold joinWords. cbn. rewrite <- !app_assoc. reflexivity. Qed.

Lemma joinWords_nonempty w rest : isWord w -> joinWords w rest <> [].
Proof. intros [Hne _]. unfold joinWords. destruct w; [congruence | discriminate]. Qed.

Lemma joinWords_trimmed w rest :
  isWord w -> Forall (fun p => isGap (fst p) /\ isWord (snd p)) rest ->
  trimmed (joinWords w rest) = true.
Proof.
  intros Hw Hrest. unfold trimmed. rewrite andb_true_iff, !negb_true_iff.
  split.
  - unfold joinWords. rewrite startsWithSpace_app by apply Hw.
    apply word_head, Hw.
  - revert w Hw. induction Hrest as [|[g w'] rest [Hg Hw'] _ IH]; intros w Hw.
    + unfold joinWords. cbn. rewrite app_nil_r. apply word_last, Hw.
    + rewrite joinWords_cons, app_assoc, rev_app_distr.
      rewrite startsWithSpace_app; [apply IH, Hw' |].
      intros E. apply (joinWords_nonempty w' rest Hw').
      rewrite <- (rev_involutive (joinWords w' rest)), E. reflexivity.
Qed.

(** Splitting a text of words at whitespace yields the words. *)
Lemma split_joinWords w rest piece :
  isWord w -> Forall (fun p => isGap (fst p) /\ isWord (snd p)) rest ->
  split_from spacePattern 0 piece (joinWords w rest)
  = (rev piece ++ w) :: List.map snd rest.
Proof.
  intros Hw Hrest. revert w piece Hw.
  induction Hrest as [|[g w'] rest [Hg Hw'] _ IH]; intros w piece Hw.
  - unfold joinWords. cbn [List.map concat]. rewrite app_nil_r.
    rewrite <- (app_nil_r w) at 1. rewrite split_from_word by apply Hw.
    cbn. rewrite rev_app_distr, rev_involutive. reflexivity.
  - rewrite joinWords_cons, split_from_word by apply Hw.
    rewrite split_from_gap; [| exact Hg |].
    + rewrite (IH w' [] Hw'), rev_app_distr, rev_involutive. reflexivity.
    + unfold joinWords. rewrite startsWithSpace_app by apply Hw'.
      apply word_head, Hw'.
Qed.

Lemma ceil_quot_bounds (a : Z) :
  (200 * (ceil_quot a 200 - 1) < a <= 200 * ceil_quot a 200)%Z.
Proof. unfold ceil_quot. Z.div_mod_to_equations. lia. Qed.

(** C8. For a plain text made of [N >= 1] words separated by whitespace
    (with or without whitespace around it, and without markup),
    [calculateReadingTime] returns the ceiling of [N / 200], which is at
    least 1. *)
Theorem calculateReadingTime_words lead trail w rest :
  Forall (fun c => isWhiteSpace c = true) lead ->
  Forall (fun c => isWhiteSpace c = true) trail ->
  isWord w ->
  Forall (fun p => isGap (fst p) /\ isWord (snd p)) rest ->
  hasTag (lead ++ joinWords w rest ++ trail) = false ->
  let n := Z.of_nat (S (length rest)) in
  let r := calculateReadingTime (lead ++ joinWords w rest ++ trail) in
  r = ceil_quot n 200
  /\ (200 * (r - 1) < n <= 200 * r)%Z
  /\ (1 <= r)%Z.
Proof.
  intros Hlead Htrail Hw Hrest Htag n r.
  assert (E : r = ceil_quot n 200).
  { subst r n. unfold calculateReadingTime.
    rewrite (replaceAll_no_tag _ _ Htag).
    rewrite (trim_padded _ _ _ Hlead Htrail (joinWords_trimmed _ _ Hw Hrest)).
    unfold split. rewrite (split_joinWords _ _ [] Hw Hrest).
    cbn [length]. rewrite length_map. reflexivity. }
  pose proof (ceil_quot_bounds n) as Hb. rewrite <- E in Hb.
  split; [exact E |]. split; [exact Hb |]. subst n. lia.
Qed.

Lemma calculateReadingTime_words_witness :
  calculateReadingTime (js "  data engineering   for everyone ") = 1%Z.
Proof.
  pose proof (calculateReadingTime_words (js "  ") (js " ") (js "data")
                [(js " ", js "engineering"); (js "   ", js "for");
                 (js " ", js "everyone")]) as H.
  cbv zeta in H.
  assert (Hws : forall l, forallb isWhiteSpace l = true ->
                          Forall (fun c => isWhiteSpace c = true) l).
  { intros l. rewrite forallb_forall, List.Forall_forall. auto. }
  assert (Hnw : forall l, forallb (fun c => negb (isWhiteSpace c)) l = true ->
                          Forall (fun c => isWhiteSpace c = false) l).
  { intros l. rewrite forallb_forall, List.Forall_forall.
    intros Hl c Hc. apply negb_true_iff, Hl, Hc. }
  destruct H as (H & _).
  - apply Hws. reflexivity.
  - apply Hws. reflexivity.
  - split; [discriminate | apply Hnw; reflexivity].
  - repeat constructor; try discriminate;
      try (apply Hws; reflexivity); apply Hnw; reflexivity.
  - reflexivity.
  - exact H.
Defined.

(** C10. For every content, the empty string and whitespace-only strings
    included, [calculateReadingTime] returns at least 1: splitting always
    yields at least one piece, and for empty or whitespace-only content the
    result is exactly 1. *)
Theorem calculateReadingTime_at_least_1 content :
  (1 <= calculateReadingTime content)%Z
  /\ calculateReadingTime [] = 1%Z
  /\ (Forall (fun c => isWhiteSpace c = true) content ->
      calculateReadingTime content = 1%Z).
Proof.
  split; [| split].
  - unfold calculateReadingTime, split.
    pose proof (split_from_nonempty spacePattern 0 []
                  (trim (replaceAll tagPattern [SP] content))) as Hn.
    pose proof (ceil_quot_bounds
                  (Z.of_nat (length (split_from spacePattern 0 []
                     (trim (replaceAll tagPattern [SP] content)))))) as Hb.
    lia.
  - reflexivity.
  - intros Hws. unfold calculateReadingTime.
    assert (Htag : hasTag content = false).
    { induction Hws as [|c l Hc _ IH]; [reflexivity |].
      apply hasTag_cons. split; [| exact IH].
      intros ->. discriminate. }
    rewrite (replaceAll_no_tag _ _ Htag).
    unfold trim. rewrite (trimStart_all _ Hws). reflexivity.
Qed.

Lemma calculateReadingTime_at_least_1_witness :
  calculateReadingTime [SP; 9%N; 10%N; 160%N] = 1%Z.
Proof.
  apply (calculateReadingTime_at_least_1 [SP; 9%N; 10%N; 160%N]).
  repeat constructor.
Defined.

(** *** The feed *)

Lemma slice_0_nonneg {A} (l : list A) (n : Z) :
  (0 <= n)%Z -> slice l 0 n = take (Z.to_nat n) l.
Proof.
  intros Hn. unfold slice, relativeIndex. cbn [Z.ltb Z.compare].
  destruct (Z.ltb_spec n 0); [lia |].
  replace (Z.to_nat (Z.min 0 (Z.of_nat (length l)))) with 0 by lia.
  rewrite drop_0.
  destruct (Z_le_gt_dec n (Z.of_nat (length l))).
  - f_equal. lia.
  - rewrite !take_ge; [reflexivity | lia | lia].
Qed.

Lemma slice_0_negative {A} (l : list A) (n : Z) :
  (n < 0)%Z -> slice l 0 n = take (length l - Z.to_nat (- n)) l.
Proof.
  intros Hn. unfold slice, relativeIndex. cbn [Z.ltb Z.compare].
  destruct (Z.ltb_spec n 0); [| lia].
  replace (Z.to_nat (Z.min 0 (Z.of_nat (length l)))) with 0 by lia.
  rewrite drop_0. f_equal. lia.
Qed.

Lemma fetchMediumArticles_items parseURL limit its :
  parseURL MEDIUM_RSS_URL = Normal (mkFeed (Some its)) ->
  fetchMediumArticles parseURL limit
  = Normal (List.map normalizeItem (slice its 0 (default 10%Z limit))).
Proof. unfold fetchMediumArticles. intros ->. reflexivity. Qed.

(** C6, as stated, fails: with the limit -1 and a feed of two items the
    result is the first item, not the first -1 (that is, no) items. *)
Lemma fetchMediumArticles_negative_limit :
  fetchMediumArticles (feedOf [itemFull; itemBare]) (Some (-1)%Z)
  = Normal [normalizeItem itemFull]
  /\ fetchMediumArticles (feedOf [itemFull; itemBare]) (Some (-1)%Z)
     <> Normal (List.map normalizeItem
                  (take (Z.to_nat (-1)) [itemFull; itemBare])).
Proof. split; [reflexivity | discriminate]. Qed.

(** C6, amended. For every feed outcome and every limit (10 when omitted):
    when the feed is fetched and parsed, [fetchMediumArticles] returns, for
    a limit [>= 0], the first [limit] items in feed order, and for a
    negative limit [-k] all items but the last [k], each item normalized,
    with ['DEI Team'] as creator when the item has neither [dc:creator] nor
    [creator] and the empty array when it has no categories; when fetching
    or parsing fails it returns the empty sequence; it never throws. *)
Theorem fetchMediumArticles_spec parseURL limit :
  let n := default 10%Z limit in
  (forall its, parseURL MEDIUM_RSS_URL = Normal (mkFeed (Some its)) ->
     ((0 <= n)%Z ->
      fetchMediumArticles parseURL limit
      = Normal (List.map normalizeItem (take (Z.to_nat n) its)))
     /\ ((n < 0)%Z ->
         fetchMediumArticles parseURL limit
         = Normal (List.map normalizeItem
                     (take (length its - Z.to_nat (- n)) its))))
  /\ (forall item : JsObject,
        item !! "dc:creator" = None -> item !! "creator" = None ->
        dc_creator (normalizeItem item) = JStr (js "DEI Team"))
  /\ (forall item : JsObject,
        item !! "categories" = None ->
        categories (normalizeItem item) = JArr [])
  /\ ((exists e, parseURL MEDIUM_RSS_URL = Throw e)
      \/ parseURL MEDIUM_RSS_URL = Normal (mkFeed None) ->
      fetchMediumArticles parseURL limit = Normal [])
  /\ returns (fetchMediumArticles parseURL limit).
Proof.
  intros n. repeat split.
  - intros Hn. rewrite (fetchMediumArticles_items _ _ _ H).
    fold n. rewrite slice_0_nonneg by exact Hn. reflexivity.
  - intros Hn. rewrite (fetchMediumArticles_items _ _ _ H).
    fold n. rewrite slice_0_negative by exact Hn. reflexivity.
  - intros item H1 H2. unfold normalizeItem, prop. cbn.
    rewrite H1, H2. reflexivity.
  - intros item H1. unfold normalizeItem, prop. cbn. rewrite H1. reflexivity.
  - unfold fetchMediumArticles. intros [[e ->] | ->]; reflexivity.
  - unfold fetchMediumArticles, returns.
    destruct (parseURL MEDIUM_RSS_URL) as [[[its|]]|e]; cbn; eauto.
Qed.

Lemma fetchMediumArticles_spec_witness :
  fetchMediumArticles (feedOf [itemFull; itemBare; itemFull]) (Some 2%Z)
  = Normal [normalizeItem itemFull; normalizeItem itemBare]
  /\ fetchMediumArticles (feedOf [itemFull; itemBare; itemFull]) (Some (-2)%Z)
     = Normal [normalizeItem itemFull]
  /\ dc_creator (normalizeItem itemBare) = JStr (js "DEI Team")
  /\ categories (normalizeItem itemBare) = JArr []
  /\ fetchMediumArticles feedDown None = Normal [].
Proof.
  pose proof (fetchMediumArticles_spec
                (feedOf [itemFull; itemBare; itemFull]) (Some 2%Z)) as H1.
  pose proof (fetchMediumArticles_spec
                (feedOf [itemFull; itemBare; itemFull]) (Some (-2)%Z)) as H2.
  pose proof (fetchMediumArticles_spec feedDown None) as H3.
  cbv zeta in H1, H2, H3.
  destruct H1 as (H1 & Hc & Hk & _).
  destruct H2 as (H2 & _).
  destruct H3 as (_ & _ & _ & H3 & _).
  split; [| split; [| split; [| split]]].
  - apply (H1 [itemFull; itemBare; itemFull]); [reflexivity | cbn; lia].
  - apply (H2 [itemFull; itemBare; itemFull]); [reflexivity | cbn; lia].
  - apply Hc; reflexivity.
  - apply Hk; reflexivity.
  - apply H3. left. eexists. reflexivity.
Defined.

End MediumSpec.

(** ** Further properties of the event repository *)

Module RepositoryFacts.
Import Supabase Rows.

(** X1. The repository is configured exactly when both environment
    variables are present and non-empty; an empty string counts as
    missing. *)
Theorem configured_iff env createClient :
  isSupabaseConfigured env createClient = true <->
  exists url key,
    PUBLIC_SUPABASE_URL env = Some url
    /\ PUBLIC_SUPABASE_ANON_KEY env = Some key
    /\ url <> [] /\ key <> []
    /\ supabase env createClient = Some (createClient url key).
Proof.
  unfold isSupabaseConfigured, supabase, supabaseUrl, supabaseKey.
  destruct env as [[[|c u]|] [[|d k]|]]; cbn; split;
    try discriminate; try (intros (? & ? & ? & ? & ? & ? & ?); congruence).
  intros _. exists (c :: u), (d :: k). repeat split; discriminate.
Qed.

Lemma configured_iff_witness :
  isSupabaseConfigured envConfigured (fun _ _ => downClient) = true
  /\ isSupabaseConfigured (mkEnv (Some []) (Some (js "anon-key")))
       (fun _ _ => downClient) = false.
Proof.
  split.
  - apply (configured_iff envConfigured (fun _ _ => downClient)).
    do 2 eexists. repeat split; try reflexivity; discriminate.
  - destruct (isSupabaseConfigured (mkEnv (Some []) (Some (js "anon-key")))
                (fun _ _ => downClient)) eqn:E; [| reflexivity].
    apply (configured_iff (mkEnv (Some []) (Some (js "anon-key")))
             (fun _ _ => downClient)) in E.
    destruct E as (url & key & [= <-] & _ & Hne & _). congruence.
Defined.

(** X2. [getFeaturedEvents] never returns an empty list: a query that
    yields no row falls back to the featured sample events. *)
Theorem getFeaturedEvents_never_empty env createClient clock :
  exists e l, getFeaturedEvents env createClient clock = Normal (e :: l).
Proof.
  destruct (SupabaseSpec.getFeaturedEvents_cases env createClient clock)
    as [H | (row & rows & err & _ & _ & H)]; rewrite H; cbn; eauto.
Qed.

(** X3. Events other than the sample events come only from a configured
    repository whose query succeeded, one event per row, in row order. *)
Theorem getEvents_source env createClient clock :
  getEvents env createClient clock = Normal (sampleEvents clock)
  \/ exists rows,
       isSupabaseConfigured env createClient = true
       /\ await_rows (remote env createClient) eventsQuery
          = Normal (mkResponse (Some rows) None)
       /\ getEvents env createClient clock
          = Normal (List.map mapDbEventToEvent rows).
Proof.
  unfold getEvents.
  destruct (isSupabaseConfigured env createClient) eqn:Hc; cbn; [| auto].
  rewrite (SupabaseSpec.configured_client _ _ Hc). cbn.
  destruct (await_rows (remote env createClient) eventsQuery)
    as [[[rows|] [err|]]|e]; cbn; auto.
  right. exists rows. auto.
Qed.

(** X4. [getEvents] returns the empty list exactly when the repository is
    configured and the query succeeds with an empty row array. *)
Theorem getEvents_empty_iff env createClient clock :
  getEvents env createClient clock = Normal [] <->
  isSupabaseConfigured env createClient = true
  /\ await_rows (remote env createClient) eventsQuery
     = Normal (mkResponse (Some []) None).
Proof.
  unfold getEvents.
  destruct (isSupabaseConfigured env createClient) eqn:Hc; cbn.
  - rewrite (SupabaseSpec.configured_client _ _ Hc). cbn.
    destruct (await_rows (remote env createClient) eventsQuery)
      as [[[[|row rows]|] [err|]]|e]; cbn; split;
      try discriminate; try tauto; intros [_ H]; discriminate.
  - split; [discriminate | intros [? _]; discriminate].
Qed.

Lemma getEvents_empty_iff_witness :
  getEvents envConfigured (fun _ _ => tableClient []) clock0 = Normal [].
Proof.
  apply (getEvents_empty_iff envConfigured (fun _ _ => tableClient []) clock0).
  split; reflexivity.
Defined.

Lemma sampleBySlug_iff clock s e :
  sampleBySlug clock s = Some e <->
  In e (sampleEvents clock) /\ slug e = JStr s.
Proof.
  unfold sampleBySlug, findEvent, sampleEvents.
  cbn [List.find slug strict_eq_str].
  repeat case_bool_decide; split;
    try (intros [= <-]; split;
         [first [left; reflexivity | right; left; reflexivity]
         | cbn [slug]; congruence]);
    try discriminate;
    intros [[<- | [<- | []]] Hs]; cbn [slug] in Hs; injection Hs as Hs;
    try reflexivity; try contradiction.
  subst s. vm_compute in Hs. discriminate.
Qed.

(** X5. Whenever the lookup of a slug fails (not configured, exception, or
    error reported), [getEventBySlug] returns an event exactly when it is
    the sample event with that slug. *)
Theorem getEventBySlug_fallback_iff env createClient clock s e :
  failed env createClient
    (await_single (remote env createClient) (slugQuery s)) ->
  getEventBySlug env createClient clock s = Normal (Some e) <->
  In e (sampleEvents clock) /\ slug e = JStr s.
Proof.
  intros Hf. rewrite (SupabaseSpec.getEventBySlug_failed _ _ _ _ Hf).
  rewrite <- sampleBySlug_iff. split; [intros [= ->]; reflexivity | congruence].
Qed.

Lemma getEventBySlug_fallback_iff_witness :
  getEventBySlug envConfigured (fun _ _ => downClient) clock0
    (js "data-pipelines-airflow")
  = Normal (Some (List.last (sampleEvents clock0) (mapDbEventToEvent ∅))).
Proof.
  apply (getEventBySlug_fallback_iff envConfigured (fun _ _ => downClient)
           clock0 (js "data-pipelines-airflow")).
  - right. left. eexists. reflexivity.
  - split; [right; left; reflexivity | reflexivity].
Defined.

(** X6. When the repository is configured and the lookup finds a row
    without error, [getEventBySlug] returns the event mapped from that row,
    whatever the sample data holds; when it finds nothing and reports no
    error, the result is absent even for the slug of a sample event. *)
Theorem getEventBySlug_found env createClient clock s :
  isSupabaseConfigured env createClient = true ->
  (forall row,
     await_single (remote env createClient) (slugQuery s)
     = Normal (mkResponse (Some row) None) ->
     getEventBySlug env createClient clock s
     = Normal (Some (mapDbEventToEvent row)))
  /\ (await_single (remote env createClient) (slugQuery s)
      = Normal (mkResponse None None) ->
      getEventBySlug env createClient clock s = Normal None).
Proof.
  intros Hc. unfold getEventBySlug. rewrite Hc. cbn.
  rewrite (SupabaseSpec.configured_client _ _ Hc). cbn.
  split; [intros row H | intros H]; rewrite H; reflexivity.
Qed.

Lemma getEventBySlug_found_witness :
  getEventBySlug envConfigured (fun _ _ => foundClient archivedRow) clock0
    (js "intro-to-data-engineering")
  = Normal (Some (mapDbEventToEvent archivedRow)).
Proof.
  apply (getEventBySlug_found envConfigured
           (fun _ _ => foundClient archivedRow) clock0
           (js "intro-to-data-engineering")); reflexivity.
Defined.

Lemma or_else_truthy v d : truthy d = true -> truthy (v ||| d) = true.
Proof. unfold or_else. destruct (truthy v) eqn:E; auto. Qed.

Lemma truthy_not_nullish v : truthy v = true -> nullish v = false.
Proof. destruct v; cbn; congruence. Qed.

Lemma or_else_not_nullish v d : nullish d = false -> nullish (v ||| d) = false.
Proof.
  unfold or_else. destruct (truthy v) eqn:E; auto using truthy_not_nullish.
Qed.

(** X7. The fields [mapDbEventToEvent] defaults are never [undefined] or
    [null], whatever the row holds; [timezone], [locationType], [tags] and
    [status] are always truthy, and [registeredCount] is never [NaN]. *)
Theorem mapDbEventToEvent_defaults (row : JsObject) :
  let e := mapDbEventToEvent row in
  Forall (fun v => nullish v = false)
    [excerpt e; timezone e; locationType e; coverImage e; tags e; status e;
     registeredCount e; isFeatured e]
  /\ Forall (fun v => truthy v = true)
       [timezone e; locationType e; tags e; status e]
  /\ registeredCount e <> JNaN.
Proof.
  cbn. split; [| split].
  - repeat constructor; apply or_else_not_nullish; reflexivity.
  - repeat constructor; apply or_else_truthy; reflexivity.
  - unfold or_else. destruct (prop row "registered_count"); cbn;
      try discriminate; destruct (_ : bool); discriminate.
Qed.

Ltac in_columns := cbn; repeat first [left; reflexivity | right].

(** X8. [mapDbEventToEvent] reads the 24 columns of the table and nothing
    else: setting any other property of the row leaves the event
    unchanged. *)
Theorem mapDbEventToEvent_other_columns (row : JsObject) k v :
  ~ In k eventColumns ->
  mapDbEventToEvent (<[k := v]> row) = mapDbEventToEvent row.
Proof.
  intros Hk.
  assert (H : forall c, In c eventColumns ->
                        prop (<[k := v]> row) c = prop row c).
  { intros c Hc. unfold prop. rewrite lookup_insert_ne; [reflexivity |].
    intros ->. exact (Hk Hc). }
  unfold mapDbEventToEvent. rewrite !H by in_columns. reflexivity.
Qed.

Lemma mapDbEventToEvent_other_columns_witness :
  mapDbEventToEvent (<["internal_notes" := JStr (js "draft")]> archivedRow)
  = mapDbEventToEvent archivedRow.
Proof.
  apply (mapDbEventToEvent_other_columns archivedRow "internal_notes"
           (JStr (js "draft"))).
  cbn. intuition discriminate.
Defined.

End RepositoryFacts.

(** ** Further properties of the Medium feed helpers *)

Module FeedFacts.
Import Medium Image Rows.

(** *** The image pattern *)

Lemma stripPrefix_Some p s r : stripPrefix p s = Some r <-> s = p ++ r.
Proof.
  revert s. induction p as [|a p IH]; intros s; cbn.
  - split; congruence.
  - destruct s as [|c s]; [split; discriminate |].
    destruct (N.eqb_spec a c) as [-> | Hne].
    + rewrite IH. split; congruence.
    + split; [discriminate | congruence].
Qed.

Lemma upToQuote_Some s u :
  upToQuote s = Some u <->
  exists post, s = u ++ QUOTE :: post /\ ~ In QUOTE u.
Proof.
  revert u. induction s as [|c s IH]; intros u; cbn.
  - split; [discriminate |]. intros (post & E & _). destruct u; discriminate.
  - destruct (N.eqb_spec c QUOTE) as [-> | Hne].
    + split.
      * intros [= <-]. exists s. cbn. tauto.
      * intros (post & E & Hu). destruct u as [|d u]; [reflexivity |].
        injection E as <- _. destruct Hu. left. reflexivity.
    + split.
      * destruct (upToQuote s) as [v|] eqn:Ev; cbn; intros [= <-].
        destruct (proj1 (IH v) eq_refl) as (post & -> & Hv).
        exists post. cbn. intuition congruence.
      * intros (post & E & Hu).
        destruct u as [|d u]; injection E as -> E; [congruence |].
        assert (upToQuote s = Some u) as ->; [| reflexivity].
        apply IH. exists post. cbn in Hu. tauto.
Qed.

Lemma srcAttr_Some s u :
  srcAttr s = Some u <->
  u <> [] /\ ~ In QUOTE u /\ exists post, s = srcEq ++ u ++ QUOTE :: post.
Proof.
  unfold srcAttr. split.
  - destruct (stripPrefix srcEq s) as [rest|] eqn:Ep; [| discriminate].
    apply stripPrefix_Some in Ep as ->.
    destruct (upToQuote rest) as [[|c v]|] eqn:Eu; try discriminate.
    intros [= <-]. apply upToQuote_Some in Eu as (post & -> & Hv).
    split; [discriminate |]. split; [exact Hv |]. exists post. reflexivity.
  - intros (Hne & Hq & post & ->).
    rewrite (proj2 (stripPrefix_Some srcEq _ (u ++ QUOTE :: post)) eq_refl).
    rewrite (proj2 (upToQuote_Some (u ++ QUOTE :: post) u)) by eauto.
    destruct u; [congruence | reflexivity].
Qed.

Lemma srcAfter_sound s u :
  srcAfter s = Some u ->
  exists m t, s = m ++ t /\ ~ In GT m /\ srcAttr t = Some u.
Proof.
  induction s as [|c s IH]; cbn [srcAfter]; [discriminate |].
  destruct (N.eqb_spec c GT) as [-> | Hne].
  - intros H. exists [], (GT :: s). cbn. tauto.
  - destruct (srcAfter s) as [v|] eqn:Ev.
    + intros [= <-]. destruct (IH eq_refl) as (m & t & -> & Hm & Ht).
      exists (c :: m), t. cbn. intuition congruence.
    + intros H. exists [], (c :: s). cbn. tauto.
Qed.

Lemma srcAfter_complete m t :
  ~ In GT m -> is_Some (srcAttr t) -> is_Some (srcAfter (m ++ t)).
Proof.
  intros Hm [u Ht]. induction m as [|c m IH]; cbn [app].
  - destruct t as [|c t]; [cbn in Ht; discriminate |]. cbn [srcAfter].
    destruct (if (c =? GT)%N then None else srcAfter t); [eauto |].
    rewrite Ht. eauto.
  - cbn [srcAfter]. cbn in Hm.
    destruct (N.eqb_spec c GT) as [-> | Hne]; [tauto |].
    destruct IH as [v ->]; [tauto |]. eauto.
Qed.

Lemma imgPattern_sound s u :
  imgPattern s = Some u ->
  exists mid post,
    s = imgOpen ++ mid ++ srcEq ++ u ++ QUOTE :: post
    /\ mid <> [] /\ ~ In GT mid /\ u <> [] /\ ~ In QUOTE u.
Proof.
  unfold imgPattern.
  destruct (stripPrefix imgOpen s) as [[|c rest]|] eqn:Ep; try discriminate.
  apply stripPrefix_Some in Ep as ->.
  destruct (N.eqb_spec c GT) as [-> | Hne]; [discriminate |].
  intros H. apply srcAfter_sound in H as (m & t & -> & Hm & Ht).
  apply srcAttr_Some in Ht as (Hu & Hq & post & ->).
  exists (c :: m), post.
  split; [reflexivity |]. split; [discriminate |].
  split; [cbn; intuition congruence | split; assumption].
Qed.

Lemma imgPattern_complete mid u post :
  mid <> [] -> ~ In GT mid -> u <> [] -> ~ In QUOTE u ->
  is_Some (imgPattern (imgOpen ++ mid ++ srcEq ++ u ++ QUOTE :: post)).
Proof.
  intros Hne Hm Hu Hq. unfold imgPattern.
  rewrite (proj2 (stripPrefix_Some imgOpen _ _) eq_refl).
  destruct mid as [|c m]; [congruence |]. cbn [app]. cbn in Hm.
  destruct (N.eqb_spec c GT) as [-> | Hc]; [tauto |].
  apply srcAfter_complete; [tauto |].
  exists u. apply srcAttr_Some. eauto.
Qed.

Lemma extractFirstImage_sound content url :
  extractFirstImage content = Some url -> imgWithSrc content url.
Proof.
  induction content as [|c s IH]; [discriminate |].
  cbn [extractFirstImage].
  destruct (imgPattern (c :: s)) as [v|] eqn:E.
  - intros [= <-]. apply imgPattern_sound in E as (mid & post & E & H).
    exists [], mid, post. split; [exact E | exact H].
  - intros H. destruct (IH H) as (pre & mid & post & -> & Hrest).
    exists (c :: pre), mid, post. split; [reflexivity | exact Hrest].
Qed.

Lemma extractFirstImage_complete content url :
  imgWithSrc content url -> is_Some (extractFirstImage content).
Proof.
  intros (pre & mid & post & -> & Hne & Hm & Hu & Hq).
  induction pre as [|c pre IH].
  - pose proof (imgPattern_complete mid url post Hne Hm Hu Hq) as [v Hv].
    cbn [app] in *. change (imgOpen ++ ?x) with (60%N :: js "img" ++ x) in *.
    cbn [extractFirstImage]. rewrite Hv. eauto.
  - cbn [app extractFirstImage].
    destruct (imgPattern _); [eauto | exact IH].
Qed.

(** X9. Whenever [extractFirstImage] returns a URL, the content holds an
    image tag with that source: the URL is not empty, holds no quote, and
    stands between [src=] with a quote and a closing quote, after [<img] and
    one or more units other than [>]. *)
Theorem extractFirstImage_url content url :
  extractFirstImage content = Some url -> imgWithSrc content url.
Proof. apply extractFirstImage_sound. Qed.

Lemma extractFirstImage_url_witness :
  imgWithSrc imageContent (js "https://example.com/image.jpg").
Proof. apply (extractFirstImage_url imageContent). reflexivity. Defined.

(** X10. [extractFirstImage] returns [undefined] exactly when the content
    holds no image tag with a source; in particular for every content
    without [<]. *)
Theorem extractFirstImage_absent_iff content :
  (extractFirstImage content = None <->
   forall url, ~ imgWithSrc content url)
  /\ (~ In LT content -> extractFirstImage content = None).
Proof.
  assert (Hiff : extractFirstImage content = None <->
                 forall url, ~ imgWithSrc content url).
  { split.
    - intros H url Hi. apply extractFirstImage_complete in Hi as [v Hv].
      congruence.
    - intros H. destruct (extractFirstImage content) as [v|] eqn:E;
        [| reflexivity].
      destruct (H v). apply extractFirstImage_sound, E. }
  split; [exact Hiff |].
  intros Hlt. apply Hiff. intros url (pre & mid & post & -> & _).
  apply Hlt, in_or_app. right. left. reflexivity.
Qed.

Lemma extractFirstImage_absent_iff_witness :
  extractFirstImage (js "No images here, only text.") = None.
Proof.
  apply (extractFirstImage_absent_iff (js "No images here, only text.")).
  vm_compute. intuition discriminate.
Defined.

(** The greedy [[^>]+] makes the last source of a tag win. *)
Example extractFirstImage_last_source :
  extractFirstImage lazyImageContent = Some (js "b.png").
Proof. reflexivity. Qed.

(** *** Excerpts *)

Lemma length_replace_from re n s :
  length (replace_from re [SP] n s) <= length s.
Proof.
  revert n. induction s as [|c s IH]; intros n; cbn [replace_from length];
    [lia |].
  destruct n as [|n]; [| specialize (IH n); lia].
  destruct (re (c :: s)) as [[|k]|]; cbn [app length];
    [specialize (IH 0) | specialize (IH k) | specialize (IH 0)]; lia.
Qed.

Lemma In_trim x s : In x (trim s) -> In x s.
Proof.
  intros H. destruct (MediumSpec.trim_infix s) as (l1 & l2 & E).
  rewrite E. apply in_or_app. right. apply in_or_app. left. exact H.
Qed.

Lemma length_cleaned content : length (cleaned content) <= length content.
Proof.
  unfold cleaned, replaceAll.
  etransitivity; [apply MediumSpec.length_trim |].
  etransitivity; apply length_replace_from.
Qed.

Lemma In_cleaned x content : In x (cleaned content) -> x = SP \/ In x content.
Proof.
  unfold cleaned, replaceAll. intros H. apply In_trim in H.
  apply MediumSpec.replace_from_In in H as [H | H]; [auto |].
  apply MediumSpec.replace_from_In in H. exact H.
Qed.

(** X11. [extractExcerpt] never invents text: every unit of the result is a
    unit of the content, a space, or a dot of the ellipsis; the result is at
    most 3 units longer than the content, and no longer than the content
    when nothing is truncated. *)
Theorem extractExcerpt_bounded content maxLength :
  (forall x, In x (extractExcerpt content maxLength) ->
             x = SP \/ x = DOT \/ In x content)
  /\ length (extractExcerpt content maxLength) <= length content + 3
  /\ ((Z.of_nat (length (cleaned content)) <= default 200%Z maxLength)%Z ->
      length (extractExcerpt content maxLength) <= length content).
Proof.
  rewrite MediumSpec.extractExcerpt_eq.
  pose proof (length_cleaned content) as Hl.
  destruct (Z.leb_spec (Z.of_nat (length (cleaned content)))
              (default 200%Z maxLength)) as [Hle | Hgt].
  - split; [| split; [lia | auto]].
    intros x Hx. apply In_cleaned in Hx. tauto.
  - split; [| split; [| lia]].
    + intros x Hx. apply in_app_or in Hx as [Hx | Hx].
      * apply In_trim in Hx.
        assert (Hc : In x (cleaned content)).
        { rewrite <- (take_drop (Z.to_nat (default 200%Z maxLength))
                        (cleaned content)).
          apply in_or_app. left. exact Hx. }
        apply In_cleaned in Hc. tauto.
      * right. left. cbn in Hx. intuition congruence.
    + rewrite length_app. cbn [length ellipsis].
      pose proof (MediumSpec.length_trim
                    (take (Z.to_nat (default 200%Z maxLength))
                       (cleaned content))) as Ht.
      rewrite length_take in Ht. lia.
Qed.

Lemma extractExcerpt_bounded_witness :
  length (extractExcerpt (js "<b>Hi</b>  there") None)
  <= length (js "<b>Hi</b>  there").
Proof.
  apply (extractExcerpt_bounded (js "<b>Hi</b>  there") None).
  vm_compute. discriminate.
Defined.

Lemma squeeze_word b w s :
  w <> [] -> Forall (fun c => isWhiteSpace c = false) w ->
  squeeze b (w ++ s) = w ++ squeeze false s.
Proof.
  intros Hne H. revert b. induction H as [|c w Hc Hw IH]; intros b;
    [congruence |].
  cbn [app squeeze]. rewrite Hc. f_equal.
  destruct w as [|d w]; [reflexivity |]. apply IH. discriminate.
Qed.

Lemma squeeze_true_spaces g s :
  Forall (fun c => isWhiteSpace c = true) g ->
  squeeze true (g ++ s) = squeeze true s.
Proof.
  induction 1 as [|c g Hc _ IH]; [reflexivity |].
  cbn [app squeeze]. rewrite Hc. exact IH.
Qed.

Lemma squeeze_false_spaces g s :
  Forall (fun c => isWhiteSpace c = true) g ->
  exists l, Forall (fun c => isWhiteSpace c = true) l
            /\ squeeze false (g ++ s) = l ++ squeeze (bool_decide (g <> [])) s.
Proof.
  intros Hg. destruct Hg as [|c g Hc Hg].
  - exists []. split; [constructor |]. reflexivity.
  - exists [SP]. split; [repeat constructor |].
    cbn [app squeeze]. rewrite Hc, (squeeze_true_spaces _ _ Hg).
    reflexivity.
Qed.

Lemma gaps_single rest :
  Forall (fun p : ustring * ustring => isGap (fst p) /\ isWord (snd p)) rest ->
  Forall (fun p : ustring * ustring => isGap (fst p) /\ isWord (snd p))
    (List.map (fun p => ([SP], snd p)) rest).
Proof.
  induction 1 as [|[g w] rest [_ Hw] _ IH]; constructor; [| exact IH].
  split; [| exact Hw]. split; [discriminate | repeat constructor].
Qed.

Lemma squeeze_joinWords b w rest t :
  isWord w ->
  Forall (fun p : ustring * ustring => isGap (fst p) /\ isWord (snd p)) rest ->
  squeeze b (joinWords w rest ++ t)
  = joinWords w (List.map (fun p => ([SP], snd p)) rest) ++ squeeze false t.
Proof.
  intros Hw Hrest. revert b w Hw.
  induction Hrest as [|[g w'] rest [[Hne Hg] Hw'] _ IH]; intros b w [Hn Hw].
  - unfold joinWords. cbn [List.map concat]. rewrite !app_nil_r.
    apply squeeze_word; assumption.
  - cbn [List.map fst snd] in *. rewrite !MediumSpec.joinWords_cons.
    rewrite <- !app_assoc, squeeze_word by assumption. f_equal.
    destruct g as [|c g]; [congruence |]. apply Forall_cons in Hg as [Hc Hg].
    cbn [app squeeze]. rewrite Hc, squeeze_true_spaces by exact Hg.
    f_equal. apply IH, Hw'.
Qed.

(** X12. On plain text made of words, with any whitespace between and
    around them, the cleaned text of [extractExcerpt] is the words joined by
    single spaces, and it is the excerpt whenever it fits [maxLength]. *)
Theorem extractExcerpt_words lead trail w rest maxLength :
  Forall (fun c => isWhiteSpace c = true) lead ->
  Forall (fun c => isWhiteSpace c = true) trail ->
  isWord w ->
  Forall (fun p => isGap (fst p) /\ isWord (snd p)) rest ->
  hasTag (lead ++ joinWords w rest ++ trail) = false ->
  let spaced := joinWords w (List.map (fun p => ([SP], snd p)) rest) in
  cleaned (lead ++ joinWords w rest ++ trail) = spaced
  /\ ((Z.of_nat (length spaced) <= default 200%Z maxLength)%Z ->
      extractExcerpt (lead ++ joinWords w rest ++ trail) maxLength = spaced).
Proof.
  intros Hlead Htrail Hw Hrest Htag spaced.
  assert (E : cleaned (lead ++ joinWords w rest ++ trail) = spaced).
  { unfold cleaned. rewrite (MediumSpec.replaceAll_no_tag _ _ Htag).
    rewrite MediumSpec.replaceAll_space.
    destruct (squeeze_false_spaces lead (joinWords w rest ++ trail) Hlead)
      as (l1 & Hl1 & ->).
    rewrite (squeeze_joinWords _ _ _ _ Hw Hrest). fold spaced.
    destruct (squeeze_false_spaces trail [] Htrail) as (l2 & Hl2 & E2).
    rewrite app_nil_r in E2. rewrite E2. cbn [squeeze]. rewrite app_nil_r.
    apply MediumSpec.trim_padded; [exact Hl1 | exact Hl2 |].
    apply MediumSpec.joinWords_trimmed; [exact Hw | apply gaps_single, Hrest]. }
  split; [exact E |].
  intros Hfit. rewrite MediumSpec.extractExcerpt_eq, E.
  destruct (Z.leb_spec (Z.of_nat (length spaced)) (default 200%Z maxLength));
    [reflexivity | lia].
Qed.

Lemma words_fixture :
  Forall (fun c => isWhiteSpace c = true) (js "  ")
  /\ Forall (fun c => isWhiteSpace c = true) (js " ")
  /\ isWord (js "data")
  /\ Forall (fun p : ustring * ustring => isGap (fst p) /\ isWord (snd p))
       [(js " ", js "engineering"); (js "   ", js "for")].
Proof.
  assert (Hws : forall l, forallb isWhiteSpace l = true ->
                          Forall (fun c => isWhiteSpace c = true) l).
  { intros l. rewrite forallb_forall, List.Forall_forall. auto. }
  assert (Hnw : forall l, forallb (fun c => negb (isWhiteSpace c)) l = true ->
                          Forall (fun c => isWhiteSpace c = false) l).
  { intros l. rewrite forallb_forall, List.Forall_forall.
    intros Hl c Hc. apply negb_true_iff, Hl, Hc. }
  split; [apply Hws; reflexivity |]. split; [apply Hws; reflexivity |].
  split; [split; [discriminate | apply Hnw; reflexivity] |].
  repeat constructor; try discriminate;
    try (apply Hws; reflexivity); apply Hnw; reflexivity.
Defined.

Lemma extractExcerpt_words_witness :
  extractExcerpt (js "  data engineering   for ") None
  = js "data engineering for".
Proof.
  destruct words_fixture as (H1 & H2 & H3 & H4).
  apply (extractExcerpt_words (js "  ") (js " ") (js "data")
           [(js " ", js "engineering"); (js "   ", js "for")] None
           H1 H2 H3 H4); [reflexivity | vm_compute; discriminate].
Defined.

(** X13. Trimming and then splitting a text of words at whitespace gives
    back exactly the words, in order, whatever whitespace separates and
    surrounds them. *)
Theorem split_trim_words lead trail w rest :
  Forall (fun c => isWhiteSpace c = true) lead ->
  Forall (fun c => isWhiteSpace c = true) trail ->
  isWord w ->
  Forall (fun p => isGap (fst p) /\ isWord (snd p)) rest ->
  split spacePattern (trim (lead ++ joinWords w rest ++ trail))
  = w :: List.map snd rest.
Proof.
  intros Hlead Htrail Hw Hrest.
  rewrite (MediumSpec.trim_padded _ _ _ Hlead Htrail
             (MediumSpec.joinWords_trimmed _ _ Hw Hrest)).
  apply (MediumSpec.split_joinWords w rest [] Hw Hrest).
Qed.

Lemma split_trim_words_witness :
  split spacePattern (trim (js "  data engineering   for "))
  = [js "data"; js "engineering"; js "for"].
Proof.
  destruct words_fixture as (H1 & H2 & H3 & H4).
  exact (split_trim_words (js "  ") (js " ") (js "data")
           [(js " ", js "engineering"); (js "   ", js "for")] H1 H2 H3 H4).
Defined.

(** X14. Stripping tags is idempotent: the stripped text holds no tag,
    stripping it again changes nothing, and [extractExcerpt] and
    [calculateReadingTime] give the same results on it as on the raw
    content. *)
Theorem strip_idempotent content maxLength :
  let stripped := replaceAll tagPattern [SP] content in
  hasTag stripped = false
  /\ replaceAll tagPattern [SP] stripped = stripped
  /\ extractExcerpt stripped maxLength = extractExcerpt content maxLength
  /\ calculateReadingTime stripped = calculateReadingTime content.
Proof.
  intros stripped.
  assert (Ht : hasTag stripped = false) by apply MediumSpec.hasTag_strip.
  assert (E : replaceAll tagPattern [SP] stripped = stripped)
    by apply (MediumSpec.replaceAll_no_tag _ _ Ht).
  split; [exact Ht |]. split; [exact E |].
  unfold extractExcerpt, calculateReadingTime. rewrite E. split; reflexivity.
Qed.

(** *** The feed *)

Lemma slice_0_prefix {A} (l : list A) (n : Z) :
  exists k, slice l 0 n = take k l
            /\ k <= length l /\ ((0 <= n)%Z -> (Z.of_nat k <= n)%Z).
Proof.
  destruct (Z_lt_le_dec n 0) as [Hn | Hn].
  - exists (length l - Z.to_nat (- n)).
    rewrite MediumSpec.slice_0_negative by exact Hn. repeat split; lia.
  - exists (Nat.min (Z.to_nat n) (length l)).
    rewrite MediumSpec.slice_0_nonneg by exact Hn.
    split; [| split; lia].
    destruct (Nat.le_ge_cases (Z.to_nat n) (length l)) as [H | H].
    + rewrite Nat.min_l by exact H. reflexivity.
    + rewrite Nat.min_r by exact H. rewrite !take_ge; [reflexivity | lia | lia].
Qed.

(** X15. For every limit, negative ones included, the articles returned by
    [fetchMediumArticles] are the normalized items of a prefix of the feed:
    nothing is reordered or skipped, there are never more articles than
    feed items, and never more than a limit [>= 0]. *)
Theorem fetchMediumArticles_prefix parseURL limit its :
  parseURL MEDIUM_RSS_URL = Normal (mkFeed (Some its)) ->
  exists k,
    fetchMediumArticles parseURL limit
    = Normal (List.map normalizeItem (take k its))
    /\ k <= length its
    /\ ((0 <= default 10%Z limit)%Z -> (Z.of_nat k <= default 10%Z limit)%Z).
Proof.
  intros H. rewrite (MediumSpec.fetchMediumArticles_items _ _ _ H).
  destruct (slice_0_prefix its (default 10%Z limit)) as (k & -> & Hk).
  exists k. split; [reflexivity | exact Hk].
Qed.

Lemma fetchMediumArticles_prefix_witness :
  exists k,
    fetchMediumArticles (feedOf [itemFull; itemBare; itemFull]) (Some 5%Z)
    = Normal (List.map normalizeItem (take k [itemFull; itemBare; itemFull]))
    /\ k <= 3 /\ ((0 <= 5)%Z -> (Z.of_nat k <= 5)%Z).
Proof.
  apply (fetchMediumArticles_prefix (feedOf [itemFull; itemBare; itemFull])
           (Some 5%Z) [itemFull; itemBare; itemFull]).
  reflexivity.
Defined.

(** X16. A normalized item never holds [undefined] or [null]: absent or
    falsy fields become the empty string, ['DEI Team'] or the empty array.
    The creator and the categories are always truthy, and the creator is
    [dc:creator] when that is truthy, else [creator] when that is. *)
Theorem normalizeItem_fields (item : JsObject) :
  let a := normalizeItem item in
  Forall (fun v => nullish v = false)
    [title a; link a; pubDate a; dc_creator a; categories a;
     content_encoded a]
  /\ truthy (dc_creator a) = true
  /\ truthy (categories a) = true
  /\ (truthy (prop item "dc:creator") = true ->
      dc_creator a = prop item "dc:creator")
  /\ (truthy (prop item "dc:creator") = false ->
      truthy (prop item "creator") = true ->
      dc_creator a = prop item "creator").
Proof.
  cbn. split; [| split; [| split; [| split]]].
  - repeat constructor;
      apply RepositoryFacts.or_else_not_nullish; reflexivity.
  - apply RepositoryFacts.or_else_truthy. reflexivity.
  - apply RepositoryFacts.or_else_truthy. reflexivity.
  - intros H. unfold or_else. rewrite H, H. reflexivity.
  - intros H1 H2. unfold or_else. rewrite H1, H2. reflexivity.
Qed.

Lemma normalizeItem_fields_witness :
  dc_creator (normalizeItem itemFull) = JStr (js "Rani")
  /\ dc_creator
       (normalizeItem (<["creator" := JStr (js "Budi")]> itemBare))
     = JStr (js "Budi").
Proof.
  split.
  - apply (normalizeItem_fields itemFull). reflexivity.
  - pose proof (normalizeItem_fields
                  (<["creator" := JStr (js "Budi")]> itemBare))
      as (_ & _ & _ & _ & H).
    exact (H eq_refl eq_refl).
Defined.

End FeedFacts.

(** ** Properties of the event factory of the test suite *)

Module HelpersFacts.
Import Helpers.

Lemma mockDefaults_dom uuid now k :
  is_Some (mockDefaults uuid now !! k) <-> In k mockKeys.
Proof.
  unfold mockDefaults, mockKeys.
  rewrite !lookup_insert_is_Some', lookup_singleton_is_Some. cbn.
  intuition congruence.
Qed.

(** X17. [createMockEvent] lets every property of [overrides] win, also one
    set to [undefined]; every other property has its default; so the eleven
    default properties are always present, and no property appears that is
    neither a default nor an override. *)
Theorem createMockEvent_spread uuid now overrides k :
  let o := default ∅ overrides in
  let e := createMockEvent uuid now overrides in
  (forall v, o !! k = Some v -> e !! k = Some v)
  /\ (o !! k = None -> e !! k = mockDefaults uuid now !! k)
  /\ (is_Some (e !! k) <-> is_Some (o !! k) \/ In k mockKeys).
Proof.
  intros o e. subst e. unfold createMockEvent. fold o.
  split; [| split].
  - intros v H. apply lookup_union_Some_l, H.
  - intros H. apply lookup_union_r, H.
  - rewrite lookup_union_is_Some, mockDefaults_dom. reflexivity.
Qed.

Lemma createMockEvent_spread_witness :
  createMockEvent (js "uuid-1") 0 (Some workshopOverrides) !! "title"
  = Some (JStr (js "Test Workshop"))
  /\ createMockEvent (js "uuid-1") 0 (Some workshopOverrides) !! "venue"
     = Some JUndefined
  /\ createMockEvent (js "uuid-1") 0 None !! "status"
     = Some (JStr (js "upcoming")).
Proof.
  split; [| split].
  - apply (createMockEvent_spread (js "uuid-1") 0 (Some workshopOverrides)
             "title"). reflexivity.
  - apply (createMockEvent_spread (js "uuid-1") 0 (Some workshopOverrides)
             "venue"). reflexivity.
  - pose proof (createMockEvent_spread (js "uuid-1") 0 None "status")
      as (_ & H & _).
    cbv zeta in H. rewrite H; reflexivity.
Defined.

End HelpersFacts.
